(** * Voice question-answering front end: utterance segmentation,
      session control and answer streaming.

    Shallow embedding of [src/hooks/useSpeechRecognition.ts] (the
    speech-recognition hook) and of the conversation orchestration of the
    [App] component, followed by the properties of the specification. *)

From Stdlib Require Import String Ascii List NArith PArith Bool Lia.
From Stdlib Require DecimalString.
Import ListNotations.
Local Open Scope N_scope.
Local Open Scope list_scope.

(** ** JavaScript strings

    A JavaScript string is a sequence of UTF-16 code units. *)
Module JS.

Definition jsstring : Type := list N.

(** A string literal of the source (ASCII only). *)
Definition lit (s : string) : jsstring :=
  map N_of_ascii (list_ascii_of_string s).

(** [if (s)]: a string is truthy when it is not empty. *)
Definition truthy (s : jsstring) : bool :=
  match s with [] => false | _ :: _ => true end.

(** [a === b] on strings. *)
Fixpoint strictEq (a b : jsstring) : bool :=
  match a, b with
  | [], [] => true
  | x :: a', y :: b' => (x =? y) && strictEq a' b'
  | _, _ => false
  end.

(** ECMAScript WhiteSpace and LineTerminator code points, the characters
    [String.prototype.trim] strips. *)
Definition isWhiteSpace (c : N) : bool :=
  (c =? 9) || (c =? 10) || (c =? 11) || (c =? 12) || (c =? 13) || (c =? 32)
  || (c =? 160) || (c =? 5760) || ((8192 <=? c) && (c <=? 8202))
  || (c =? 8232) || (c =? 8233) || (c =? 8239) || (c =? 8287)
  || (c =? 12288) || (c =? 65279).

Fixpoint trimStart (s : jsstring) : jsstring :=
  match s with
  | [] => []
  | c :: r => if isWhiteSpace c then trimStart r else s
  end.

Definition trimEnd (s : jsstring) : jsstring := rev (trimStart (rev s)).

(** [s.trim()] *)
Definition trim (s : jsstring) : jsstring := trimEnd (trimStart s).

(** [s.includes(sub)]: [sub] starts at some position of [s]. *)
Fixpoint startsWith (sub s : jsstring) : bool :=
  match sub, s with
  | [], _ => true
  | x :: sub', y :: s' => (x =? y) && startsWith sub' s'
  | _ :: _, [] => false
  end.

Fixpoint includes (s sub : jsstring) : bool :=
  startsWith sub s ||
  match s with
  | [] => false
  | _ :: r => includes r sub
  end.

(** [n.toString()] for a non-negative integer: its decimal digits. *)
Definition toString (n : N) : jsstring :=
  lit (DecimalString.NilEmpty.string_of_uint (N.to_uint n)).

End JS.
Import JS.


(** ** Data of the speech-recognition hook *)

(** [SpeechRecognitionErrorCode] of the platform declarations. *)
Inductive SpeechRecognitionErrorCode : Type :=
| no_speech | aborted | audio_capture | network | not_allowed
| service_not_allowed | bad_grammar | language_not_supported.

Definition errorCodeName (c : SpeechRecognitionErrorCode) : jsstring :=
  match c with
  | no_speech => lit "no-speech"
  | aborted => lit "aborted"
  | audio_capture => lit "audio-capture"
  | network => lit "network"
  | not_allowed => lit "not-allowed"
  | service_not_allowed => lit "service-not-allowed"
  | bad_grammar => lit "bad-grammar"
  | language_not_supported => lit "language-not-supported"
  end.

(** One slot of [event.results]: [results[i].isFinal] and the transcript of
    its top alternative, [results[i][0].transcript]. *)
Record SpeechRecognitionResult : Type := {
  isFinal : bool;
  transcript : jsstring
}.

Record SpeechRecognitionEvent : Type := {
  resultIndex : nat;
  results : list SpeechRecognitionResult
}.

(** Handles returned by [window.setTimeout] are positive integers, hence
    truthy in [if (utteranceFinalizationTimeoutRef.current)]. *)
Definition TimerId : Type := positive.

(** A recognition instance built by [initializeRecognition]. Its handlers
    close over the value [hasPermission] had when the instance was built. *)
Record Recognition : Type := {
  handleId : positive;
  capturedHasPermission : option bool
}.

(** What [recognition.start()] does: return, or throw. *)
Inductive StartOutcome : Type :=
| Started | InvalidStateError | OtherStartError.

(** [PermissionStatus.state]. *)
Inductive PermissionState : Type := granted | denied | prompt.

(** The operations of interest, in program order. *)
Inductive Action : Type :=
| WriteManualStop (b : bool)
| CallStart (h : positive)
| CallStop (h : positive)
| CallSetTimeout (id : TimerId) (deadline : N)
| CallClearTimeout (id : TimerId)
| SetFinalizedUtterance (s : jsstring).

(** The [useState] cells and [useRef] cells of the hook, and the part of the
    browser it talks to: pending timers (all of them run
    [processCurrentUtterance]), the clock in milliseconds and the log of
    operations. *)
Record State : Type := {
  isListening : bool;
  interimTranscript : jsstring;
  finalizedUtterance : jsstring;
  error : option jsstring;
  hasPermission : option bool;
  recognitionRef : option Recognition;
  manualStopRef : bool;
  currentUtteranceRef : jsstring;
  utteranceFinalizationTimeoutRef : option TimerId;
  timers : list (TimerId * N);
  nextTimerId : TimerId;
  nextHandleId : positive;
  clock : N;
  trace : list Action
}.

Definition set_isListening (v : bool) (st : State) : State :=
  {| isListening := v; interimTranscript := interimTranscript st;
     finalizedUtterance := finalizedUtterance st; error := error st;
     hasPermission := hasPermission st; recognitionRef := recognitionRef st;
     manualStopRef := manualStopRef st; currentUtteranceRef :=
     currentUtteranceRef st; utteranceFinalizationTimeoutRef :=
     utteranceFinalizationTimeoutRef st; timers := timers st; nextTimerId :=
     nextTimerId st; nextHandleId := nextHandleId st; clock := clock st;
     trace := trace st |}.

Definition set_interimTranscript (v : jsstring) (st : State) : State :=
  {| isListening := isListening st; interimTranscript := v;
     finalizedUtterance := finalizedUtterance st; error := error st;
     hasPermission := hasPermission st; recognitionRef := recognitionRef st;
     manualStopRef := manualStopRef st; currentUtteranceRef :=
     currentUtteranceRef st; utteranceFinalizationTimeoutRef :=
     utteranceFinalizationTimeoutRef st; timers := timers st; nextTimerId :=
     nextTimerId st; nextHandleId := nextHandleId st; clock := clock st;
     trace := trace st |}.

Definition set_finalizedUtterance (v : jsstring) (st : State) : State :=
  {| isListening := isListening st; interimTranscript := interimTranscript
     st; finalizedUtterance := v; error := error st; hasPermission :=
     hasPermission st; recognitionRef := recognitionRef st; manualStopRef :=
     manualStopRef st; currentUtteranceRef := currentUtteranceRef st;
     utteranceFinalizationTimeoutRef := utteranceFinalizationTimeoutRef st;
     timers := timers st; nextTimerId := nextTimerId st; nextHandleId :=
     nextHandleId st; clock := clock st; trace := trace st |}.

Definition set_error (v : option jsstring) (st : State) : State :=
  {| isListening := isListening st; interimTranscript := interimTranscript
     st; finalizedUtterance := finalizedUtterance st; error := v;
     hasPermission := hasPermission st; recognitionRef := recognitionRef st;
     manualStopRef := manualStopRef st; currentUtteranceRef :=
     currentUtteranceRef st; utteranceFinalizationTimeoutRef :=
     utteranceFinalizationTimeoutRef st; timers := timers st; nextTimerId :=
     nextTimerId st; nextHandleId := nextHandleId st; clock := clock st;
     trace := trace st |}.

Definition set_hasPermission (v : option bool) (st : State) : State :=
  {| isListening := isListening st; interimTranscript := interimTranscript
     st; finalizedUtterance := finalizedUtterance st; error := error st;
     hasPermission := v; recognitionRef := recognitionRef st; manualStopRef
     := manualStopRef st; currentUtteranceRef := currentUtteranceRef st;
     utteranceFinalizationTimeoutRef := utteranceFinalizationTimeoutRef st;
     timers := timers st; nextTimerId := nextTimerId st; nextHandleId :=
     nextHandleId st; clock := clock st; trace := trace st |}.

Definition set_recognitionRef (v : option Recognition) (st : State) : State :=
  {| isListening := isListening st; interimTranscript := interimTranscript
     st; finalizedUtterance := finalizedUtterance st; error := error st;
     hasPermission := hasPermission st; recognitionRef := v; manualStopRef
     := manualStopRef st; currentUtteranceRef := currentUtteranceRef st;
     utteranceFinalizationTimeoutRef := utteranceFinalizationTimeoutRef st;
     timers := timers st; nextTimerId := nextTimerId st; nextHandleId :=
     nextHandleId st; clock := clock st; trace := trace st |}.

Definition set_manualStopRef (v : bool) (st : State) : State :=
  {| isListening := isListening st; interimTranscript := interimTranscript
     st; finalizedUtterance := finalizedUtterance st; error := error st;
     hasPermission := hasPermission st; recognitionRef := recognitionRef st;
     manualStopRef := v; currentUtteranceRef := currentUtteranceRef st;
     utteranceFinalizationTimeoutRef := utteranceFinalizationTimeoutRef st;
     timers := timers st; nextTimerId := nextTimerId st; nextHandleId :=
     nextHandleId st; clock := clock st; trace := trace st |}.

Definition set_currentUtteranceRef (v : jsstring) (st : State) : State :=
  {| isListening := isListening st; interimTranscript := interimTranscript
     st; finalizedUtterance := finalizedUtterance st; error := error st;
     hasPermission := hasPermission st; recognitionRef := recognitionRef st;
     manualStopRef := manualStopRef st; currentUtteranceRef := v;
     utteranceFinalizationTimeoutRef := utteranceFinalizationTimeoutRef st;
     timers := timers st; nextTimerId := nextTimerId st; nextHandleId :=
     nextHandleId st; clock := clock st; trace := trace st |}.

Definition set_utteranceFinalizationTimeoutRef (v : option TimerId) (st : State) : State :=
  {| isListening := isListening st; interimTranscript := interimTranscript
     st; finalizedUtterance := finalizedUtterance st; error := error st;
     hasPermission := hasPermission st; recognitionRef := recognitionRef st;
     manualStopRef := manualStopRef st; currentUtteranceRef :=
     currentUtteranceRef st; utteranceFinalizationTimeoutRef := v; timers :=
     timers st; nextTimerId := nextTimerId st; nextHandleId := nextHandleId
     st; clock := clock st; trace := trace st |}.

Definition set_timers (v : list (TimerId * N)) (st : State) : State :=
  {| isListening := isListening st; interimTranscript := interimTranscript
     st; finalizedUtterance := finalizedUtterance st; error := error st;
     hasPermission := hasPermission st; recognitionRef := recognitionRef st;
     manualStopRef := manualStopRef st; currentUtteranceRef :=
     currentUtteranceRef st; utteranceFinalizationTimeoutRef :=
     utteranceFinalizationTimeoutRef st; timers := v; nextTimerId :=
     nextTimerId st; nextHandleId := nextHandleId st; clock := clock st;
     trace := trace st |}.

Definition set_nextTimerId (v : TimerId) (st : State) : State :=
  {| isListening := isListening st; interimTranscript := interimTranscript
     st; finalizedUtterance := finalizedUtterance st; error := error st;
     hasPermission := hasPermission st; recognitionRef := recognitionRef st;
     manualStopRef := manualStopRef st; currentUtteranceRef :=
     currentUtteranceRef st; utteranceFinalizationTimeoutRef :=
     utteranceFinalizationTimeoutRef st; timers := timers st; nextTimerId :=
     v; nextHandleId := nextHandleId st; clock := clock st; trace := trace
     st |}.

Definition set_nextHandleId (v : positive) (st : State) : State :=
  {| isListening := isListening st; interimTranscript := interimTranscript
     st; finalizedUtterance := finalizedUtterance st; error := error st;
     hasPermission := hasPermission st; recognitionRef := recognitionRef st;
     manualStopRef := manualStopRef st; currentUtteranceRef :=
     currentUtteranceRef st; utteranceFinalizationTimeoutRef :=
     utteranceFinalizationTimeoutRef st; timers := timers st; nextTimerId :=
     nextTimerId st; nextHandleId := v; clock := clock st; trace := trace st |}.

Definition set_clock (v : N) (st : State) : State :=
  {| isListening := isListening st; interimTranscript := interimTranscript
     st; finalizedUtterance := finalizedUtterance st; error := error st;
     hasPermission := hasPermission st; recognitionRef := recognitionRef st;
     manualStopRef := manualStopRef st; currentUtteranceRef :=
     currentUtteranceRef st; utteranceFinalizationTimeoutRef :=
     utteranceFinalizationTimeoutRef st; timers := timers st; nextTimerId :=
     nextTimerId st; nextHandleId := nextHandleId st; clock := v; trace :=
     trace st |}.

Definition set_trace (v : list Action) (st : State) : State :=
  {| isListening := isListening st; interimTranscript := interimTranscript
     st; finalizedUtterance := finalizedUtterance st; error := error st;
     hasPermission := hasPermission st; recognitionRef := recognitionRef st;
     manualStopRef := manualStopRef st; currentUtteranceRef :=
     currentUtteranceRef st; utteranceFinalizationTimeoutRef :=
     utteranceFinalizationTimeoutRef st; timers := timers st; nextTimerId :=
     nextTimerId st; nextHandleId := nextHandleId st; clock := clock st;
     trace := v |}.

Definition initialState : State :=
  {| isListening := false; interimTranscript := []; finalizedUtterance := [];
     error := None; hasPermission := None; recognitionRef := None;
     manualStopRef := false; currentUtteranceRef := [];
     utteranceFinalizationTimeoutRef := None; timers := [];
     nextTimerId := 1%positive; nextHandleId := 1%positive; clock := 0;
     trace := [] |}.

Definition log (a : Action) (st : State) : State :=
  set_trace (trace st ++ [a]) st.

(** The utterances published by [setFinalizedUtterance], in order; clearing
    the slot (the empty string) is not one. *)
Fixpoint finalizations (tr : list Action) : list jsstring :=
  match tr with
  | [] => []
  | SetFinalizedUtterance s :: r =>
      if truthy s then s :: finalizations r else finalizations r
  | _ :: r => finalizations r
  end.

(** The handles [start()] was invoked on, in order. *)
Fixpoint startCalls (tr : list Action) : list positive :=
  match tr with
  | [] => []
  | CallStart h :: r => h :: startCalls r
  | _ :: r => startCalls r
  end.

Definition isNotFalse (p : option bool) : bool :=
  match p with Some false => false | _ => true end.

Definition isSome {A : Type} (o : option A) : bool :=
  match o with Some _ => true | None => false end.

(** ** Sample data

    Concrete batches and states on which the properties are exercised. *)

Definition finalResult (text : jsstring) : SpeechRecognitionResult :=
  {| isFinal := true; transcript := text |}.

Definition interimResult (text : jsstring) : SpeechRecognitionResult :=
  {| isFinal := false; transcript := text |}.

Definition batchOf (slots : list SpeechRecognitionResult) : SpeechRecognitionEvent :=
  {| resultIndex := 0; results := slots |}.

(** A batch whose only slot is final with the empty transcript. *)
Definition emptyFinalBatch : SpeechRecognitionEvent := batchOf [finalResult []].

Definition sampleHandle : Recognition :=
  {| handleId := 1%positive; capturedHasPermission := None |}.

(** The hook once the session has started: listening, nothing heard. *)
Definition startedState : State :=
  {| isListening := true; interimTranscript := [];
     finalizedUtterance := []; error := None; hasPermission := None;
     recognitionRef := Some sampleHandle; manualStopRef := false;
     currentUtteranceRef := [];
     utteranceFinalizationTimeoutRef := None; timers := [];
     nextTimerId := 1%positive; nextHandleId := 2%positive; clock := 0;
     trace := [WriteManualStop false; SetFinalizedUtterance [];
               CallStart 1%positive] |}.

(** The hook after [startListening], the session-start callback, an
    interim batch "hel" and a final batch "hello " arriving at time 0 with
    a timeout of 1500 ms: listening, text accumulated, timer armed. *)
Definition listeningState : State :=
  {| isListening := true; interimTranscript := [];
     finalizedUtterance := []; error := None; hasPermission := None;
     recognitionRef := Some sampleHandle; manualStopRef := false;
     currentUtteranceRef := lit "hello ";
     utteranceFinalizationTimeoutRef := Some 2%positive;
     timers := [(2%positive, 1500)];
     nextTimerId := 3%positive; nextHandleId := 2%positive; clock := 0;
     trace := [WriteManualStop false; SetFinalizedUtterance [];
               CallStart 1%positive;
               CallSetTimeout 1%positive 1500;
               CallClearTimeout 1%positive;
               CallSetTimeout 2%positive 1500] |}.

(** The same with an interim transcript showing and only white space
    accumulated. *)
Definition mumblingState : State :=
  set_interimTranscript (lit "how")
    (set_currentUtteranceRef (lit "  ") listeningState).

(** [listeningState] after the platform reported [not-allowed]: denied,
    idle, manual stop set, "hello" published and not yet consumed. *)
Definition deniedState : State :=
  {| isListening := false; interimTranscript := [];
     finalizedUtterance := lit "hello";
     error := Some (lit
       "Microphone permission denied. Please enable microphone access in your browser settings.");
     hasPermission := Some false;
     recognitionRef := Some sampleHandle; manualStopRef := true;
     currentUtteranceRef := [];
     utteranceFinalizationTimeoutRef := None; timers := [];
     nextTimerId := 3%positive; nextHandleId := 2%positive; clock := 0;
     trace := [WriteManualStop false; SetFinalizedUtterance [];
               CallStart 1%positive;
               CallSetTimeout 1%positive 1500;
               CallClearTimeout 1%positive;
               CallSetTimeout 2%positive 1500;
               WriteManualStop true;
               SetFinalizedUtterance (lit "hello");
               CallClearTimeout 2%positive] |}.

(** ** The hook *)
Section Model.

(** [utteranceSilenceTimeoutMs], whose default is the constant
    [UTTERANCE_SILENCE_TIMEOUT_MS] of the constants module. *)
Variable utteranceSilenceTimeoutMs : N.

(** Whether [getSpeechRecognition()] finds a constructor. *)
Variable speechRecognitionAvailable : bool.

Definition setFinalizedUtterance (s : jsstring) (st : State) : State :=
  log (SetFinalizedUtterance s) (set_finalizedUtterance s st).

Definition writeManualStop (b : bool) (st : State) : State :=
  log (WriteManualStop b) (set_manualStopRef b st).

Definition clearTimeout (id : TimerId) (st : State) : State :=
  log (CallClearTimeout id)
    (set_timers (filter (fun p => negb (Pos.eqb (fst p) id)) (timers st)) st).

(** [window.setTimeout] takes its delay as a 32-bit signed integer: the
    number is reduced modulo 2^32, and a result of 2^31 or more stands for
    a negative delay, which counts as 0. *)
Definition timerDelay (delay : N) : N :=
  let wrapped := delay mod 4294967296 in
  if wrapped <? 2147483648 then wrapped else 0.

Definition setTimeout (delay : N) (st : State) : TimerId * State :=
  let id := nextTimerId st in
  let deadline := clock st + timerDelay delay in
  (id, log (CallSetTimeout id deadline)
         (set_nextTimerId (Pos.succ id)
            (set_timers (timers st ++ [(id, deadline)]) st))).

Definition clearFinalizedUtterance (st : State) : State :=
  setFinalizedUtterance [] st.

Definition processCurrentUtterance (st : State) : State :=
  let st :=
    if truthy (trim (currentUtteranceRef st)) then
      let st := setFinalizedUtterance (trim (currentUtteranceRef st)) st in
      let st := set_currentUtteranceRef [] st in
      set_interimTranscript [] st
    else st in
  match utteranceFinalizationTimeoutRef st with
  | Some id => set_utteranceFinalizationTimeoutRef None (clearTimeout id st)
  | None => st
  end.

Definition initializeRecognition (st : State) : option Recognition * State :=
  if speechRecognitionAvailable then
    (Some {| handleId := nextHandleId st;
             capturedHasPermission := hasPermission st |},
     set_nextHandleId (Pos.succ (nextHandleId st)) st)
  else
    let st := set_error
      (Some (lit "Speech recognition is not supported in this browser.")) st in
    (None, set_hasPermission (Some false) st).

(** [recognitionRef.current.start()] and [recognitionRef.current.stop()]. *)
Definition recognitionStart (st : State) : State :=
  match recognitionRef st with
  | Some current => log (CallStart (handleId current)) st
  | None => st
  end.

Definition recognitionStop (st : State) : State :=
  match recognitionRef st with
  | Some current => log (CallStop (handleId current)) st
  | None => st
  end.

(** [recognitionInstance.onstart] *)
Definition onstart (st : State) : State :=
  set_error None (set_isListening true st).

(** The loop of [onresult] over the slots from [resultIndex] on, with its
    two accumulators [interim] and [finalSegmentThisEvent]. *)
Fixpoint scanResults (slots : list SpeechRecognitionResult)
    (interim finalSegmentThisEvent : jsstring) : jsstring * jsstring :=
  match slots with
  | [] => (interim, finalSegmentThisEvent)
  | r :: rest =>
      if isFinal r
      then scanResults rest interim (finalSegmentThisEvent ++ transcript r)
      else scanResults rest (interim ++ transcript r) finalSegmentThisEvent
  end.

Definition newSlots (event : SpeechRecognitionEvent) : list SpeechRecognitionResult :=
  skipn (resultIndex event) (results event).

(** [recognitionInstance.onresult] *)
Definition onresult (event : SpeechRecognitionEvent) (st : State) : State :=
  let '(interim, finalSegmentThisEvent) := scanResults (newSlots event) [] [] in
  let st := set_interimTranscript interim st in
  let st :=
    if truthy finalSegmentThisEvent
    then set_currentUtteranceRef (currentUtteranceRef st ++ finalSegmentThisEvent) st
    else st in
  if truthy interim || truthy finalSegmentThisEvent then
    let st :=
      match utteranceFinalizationTimeoutRef st with
      | Some id => clearTimeout id st
      | None => st
      end in
    let '(id, st) := setTimeout utteranceSilenceTimeoutMs st in
    set_utteranceFinalizationTimeoutRef (Some id) st
  else st.

(** [recognitionInstance.onerror] *)
Definition onerror (code : SpeechRecognitionErrorCode) (st : State) : State :=
  let st :=
    match code with
    | no_speech => set_error None st
    | not_allowed | service_not_allowed =>
        let st := set_error (Some (lit
          "Microphone permission denied. Please enable microphone access in your browser settings.")) st in
        let st := set_hasPermission (Some false) st in
        let st := writeManualStop true st in
        processCurrentUtterance st
    | _ =>
        set_error (Some (lit "Speech recognition error: " ++ errorCodeName code)) st
    end in
  set_isListening false st.

(** [recognitionInstance.onend] of the instance [self]; [outcome] is what
    [start()] does if it is reached (a throw is caught and only logged to
    the console). *)
Definition onend (self : Recognition) (outcome : StartOutcome) (st : State) : State :=
  let st := set_isListening false st in
  let st := if negb (manualStopRef st) then processCurrentUtterance st else st in
  if negb (manualStopRef st) && isNotFalse (capturedHasPermission self)
     && isSome (recognitionRef st)
  then
    if negb (manualStopRef st) then recognitionStart st else st
  else st.

(** The body of the first effect and its cleanup. *)
Definition initEffect (st : State) : State :=
  match hasPermission st, recognitionRef st with
  | None, None =>
      match initializeRecognition st with
      | (Some rec, st) => set_recognitionRef (Some rec) st
      | (None, st) => st
      end
  | _, _ => st
  end.

Definition initEffectCleanup (st : State) : State :=
  let st :=
    match recognitionRef st with
    | Some current =>
        let st := writeManualStop true st in
        let st := recognitionStop st in
        set_recognitionRef None st
    | None => st
    end in
  match utteranceFinalizationTimeoutRef st with
  | Some id => clearTimeout id st
  | None => st
  end.

(** [startListening]; [isListening] and [hasPermission] are the values of
    the render the callback belongs to, read here on entry. *)
Definition startListening (outcome : StartOutcome) (st : State) : State :=
  let isListening_ := isListening st in
  let hasPermission_ := hasPermission st in
  let st := writeManualStop false st in
  let st := set_currentUtteranceRef [] st in
  let st := set_interimTranscript [] st in
  let st := clearFinalizedUtterance st in
  let start (st : State) : State :=
    if isSome (recognitionRef st) && negb isListening_ then
      match hasPermission_ with
      | Some false =>
          set_error (Some (lit
            "Cannot start listening: Microphone permission was denied.")) st
      | _ =>
          let st := recognitionStart st in
          match outcome with
          | Started => st
          | InvalidStateError => st
          | OtherStartError =>
              set_error (Some (lit "Failed to start speech recognition.")) st
          end
      end
    else st in
  match recognitionRef st with
  | None =>
      match initializeRecognition st with
      | (Some rec, st) => start (set_recognitionRef (Some rec) st)
      | (None, st) =>
          set_error (Some (lit "Speech recognition could not be initialized.")) st
      end
  | Some _ => start st
  end.

(** [stopListening] *)
Definition stopListening (st : State) : State :=
  let isListening_ := isListening st in
  let st := writeManualStop true st in
  let st :=
    match utteranceFinalizationTimeoutRef st with
    | Some tid => set_utteranceFinalizationTimeoutRef None (clearTimeout tid st)
    | None => st
    end in
  let st := processCurrentUtterance st in
  let st :=
    if isSome (recognitionRef st) && isListening_ then recognitionStop st
    else st in
  set_isListening false st.

(** The second effect: the synchronous part, the resolution of the
    permission query and [permissionStatus.onchange]. *)
Definition permissionDeniedMessage : jsstring :=
  lit "Microphone permission denied. Please enable microphone access in your browser settings.".

Definition permissionEffect (st : State) : State :=
  match hasPermission st with
  | None =>
      if negb speechRecognitionAvailable then
        let st := set_hasPermission (Some false) st in
        set_error
          (Some (lit "Speech recognition is not supported in this browser.")) st
      else st
  | Some _ => st
  end.

Definition isGranted (s : PermissionState) : bool :=
  match s with granted => true | _ => false end.

Definition permissionQueryResolved (s : PermissionState) (st : State) : State :=
  let st := set_hasPermission (Some (isGranted s)) st in
  match s with
  | denied => set_error (Some permissionDeniedMessage) st
  | _ => st
  end.

(** [stopListening] as the callback of a render in which [isListening]
    had the value [isListening_]. *)
Definition stopListeningOf (isListening_ : bool) (st : State) : State :=
  let st := writeManualStop true st in
  let st :=
    match utteranceFinalizationTimeoutRef st with
    | Some tid => set_utteranceFinalizationTimeoutRef None (clearTimeout tid st)
    | None => st
    end in
  let st := processCurrentUtterance st in
  let st :=
    if isSome (recognitionRef st) && isListening_ then recognitionStop st
    else st in
  set_isListening false st.

(** [permissionStatus.onchange]. The handler is installed by the effect
    run that issued the query, and closes over [isListening] and
    [stopListening] of that render: [isListening_] is that value, not the
    current one. *)
Definition permissionOnChange (isListening_ : bool) (s : PermissionState)
    (st : State) : State :=
  let newPermissionState := isGranted s in
  let st := set_hasPermission (Some newPermissionState) st in
  if negb newPermissionState then
    let st := set_error (Some permissionDeniedMessage) st in
    if isListening_ then stopListeningOf isListening_ st else st
  else set_error None st.

(** ** Timers of the browser

    A pending timer whose deadline has passed runs its callback,
    [processCurrentUtterance], once. *)
Definition isPending (tid : TimerId) (st : State) : bool :=
  existsb (fun p => Pos.eqb (fst p) tid) (timers st).

Definition fireTimer (tid : TimerId) (st : State) : State :=
  if isPending tid st then
    processCurrentUtterance
      (set_timers (filter (fun p => negb (Pos.eqb (fst p) tid)) (timers st)) st)
  else st.

Fixpoint fireAll (tids : list TimerId) (st : State) : State :=
  match tids with
  | [] => st
  | tid :: rest => fireAll rest (fireTimer tid st)
  end.

(** Time passes until [t]: the timers due by then fire, oldest first. *)
Definition advance (t : N) (st : State) : State :=
  let st := set_clock (N.max (clock st) t) st in
  fireAll (map fst (filter (fun p => snd p <=? clock st) (timers st))) st.

(** A result batch arriving at time [t]. *)
Definition deliver (p : N * SpeechRecognitionEvent) (st : State) : State :=
  onresult (snd p) (advance (fst p) st).

Definition deliverAll (batches : list (N * SpeechRecognitionEvent)) (st : State) : State :=
  fold_left (fun s p => deliver p s) batches st.

(** What can happen to the hook. Handlers run only on the instance that is
    attached, the one [recognitionRef] holds. *)
Inductive hookStep : State -> State -> Prop :=
| step_startListening o st : hookStep st (startListening o st)
| step_stopListening st : hookStep st (stopListening st)
| step_clearFinalizedUtterance st : hookStep st (clearFinalizedUtterance st)
| step_onstart self st :
    recognitionRef st = Some self -> hookStep st (onstart st)
| step_onresult self event st :
    recognitionRef st = Some self -> hookStep st (onresult event st)
| step_onerror self code st :
    recognitionRef st = Some self -> hookStep st (onerror code st)
| step_onend self o st :
    recognitionRef st = Some self -> hookStep st (onend self o st)
| step_advance t st : hookStep st (advance t st)
| step_initEffect st : hookStep st (initEffect st)
| step_initEffectCleanup st : hookStep st (initEffectCleanup st)
| step_permissionEffect st : hookStep st (permissionEffect st)
| step_permissionQueryResolved s st : hookStep st (permissionQueryResolved s st)
| step_permissionOnChange isListening_ s st :
    hookStep st (permissionOnChange isListening_ s st).

Inductive hookReachable : State -> Prop :=
| reach_initial : hookReachable initialState
| reach_step st st' : hookReachable st -> hookStep st st' -> hookReachable st'.

(** ** The conversation orchestrator ([App]) *)

Record ConversationTurn : Type := {
  id : jsstring;
  utterance : jsstring;
  answer : option jsstring;
  answerError : option jsstring;
  isProcessingAnswer : bool
}.

(** The [useState] cells of [App], and the dependency values the effect on
    [finalizedUtterance] last ran with ([None] before the first render). *)
Record AppState : Type := {
  apiKeyVerified : option bool;
  isSessionActive : bool;
  conversation : list ConversationTurn;
  globalError : option jsstring;
  effectDeps : option (jsstring * bool)
}.

Record System : Type := {
  hook : State;
  app : AppState
}.

Definition initialApp : AppState :=
  {| apiKeyVerified := None; isSessionActive := false; conversation := [];
     globalError := None; effectDeps := None |}.

Definition initialSystem : System :=
  {| hook := initialState; app := initialApp |}.

Definition set_conversation (c : list ConversationTurn) (a : AppState) : AppState :=
  {| apiKeyVerified := apiKeyVerified a; isSessionActive := isSessionActive a;
     conversation := c; globalError := globalError a;
     effectDeps := effectDeps a |}.

Definition set_globalError (e : option jsstring) (a : AppState) : AppState :=
  {| apiKeyVerified := apiKeyVerified a; isSessionActive := isSessionActive a;
     conversation := conversation a; globalError := e;
     effectDeps := effectDeps a |}.

Definition set_isSessionActive (b : bool) (a : AppState) : AppState :=
  {| apiKeyVerified := apiKeyVerified a; isSessionActive := b;
     conversation := conversation a; globalError := globalError a;
     effectDeps := effectDeps a |}.

Definition set_apiKeyVerified (v : option bool) (a : AppState) : AppState :=
  {| apiKeyVerified := v; isSessionActive := isSessionActive a;
     conversation := conversation a; globalError := globalError a;
     effectDeps := effectDeps a |}.

Definition set_effectDeps (d : option (jsstring * bool)) (a : AppState) : AppState :=
  {| apiKeyVerified := apiKeyVerified a; isSessionActive := isSessionActive a;
     conversation := conversation a; globalError := globalError a;
     effectDeps := d |}.

(** [turn.answer || ''] *)
Definition orEmpty (a : option jsstring) : jsstring :=
  match a with Some s => s | None => [] end.

(** What the answer stream does next, as [processStream] sees it: a chunk
    with its [text] (which may be undefined), a throw (the [message] of an
    [Error], or [None] for any other thrown value), and the [finally]
    block. *)
Inductive StreamUpdate : Type :=
| Chunk (text : option jsstring)
| Throw (message : option jsstring)
| Finally.

(** [err instanceof Error ? err.message : "Failed to get answer stream."] *)
Definition errorMessage (message : option jsstring) : jsstring :=
  match message with
  | Some m => m
  | None => lit "Failed to get answer stream."
  end.

(** The three updaters given to [prev.map], for the captured [newTurnId]. *)
Definition updateTurn (newTurnId : jsstring) (u : StreamUpdate)
    (turn : ConversationTurn) : ConversationTurn :=
  if strictEq (id turn) newTurnId then
    match u with
    | Chunk text =>
        {| id := id turn; utterance := utterance turn;
           answer := Some (orEmpty (answer turn) ++ orEmpty text);
           answerError := answerError turn;
           isProcessingAnswer := isProcessingAnswer turn |}
    | Throw message =>
        {| id := id turn; utterance := utterance turn; answer := answer turn;
           answerError := Some (errorMessage message);
           isProcessingAnswer := false |}
    | Finally =>
        {| id := id turn; utterance := utterance turn; answer := answer turn;
           answerError := answerError turn; isProcessingAnswer := false |}
    end
  else turn.

(** One [setConversation(prev => prev.map(...))] of [processStream]; a chunk
    whose text is falsy updates nothing. *)
Definition applyUpdate (newTurnId : jsstring) (u : StreamUpdate)
    (prev : list ConversationTurn) : list ConversationTurn :=
  match u with
  | Chunk text =>
      if truthy (orEmpty text) then map (updateTurn newTurnId u) prev else prev
  | _ => map (updateTurn newTurnId u) prev
  end.

(** An answer stream: the chunks it yields and how it ends. *)
Record AnswerStream : Type := {
  chunks : list (option jsstring);
  failure : option (option jsstring)
}.

(** The updates [processStream] makes for a stream, in order. *)
Definition streamUpdates (s : AnswerStream) : list StreamUpdate :=
  map Chunk (chunks s)
  ++ match failure s with Some e => [Throw e] | None => [] end
  ++ [Finally].

(** Updates of several streams, each tagged with the turn identifier its
    [processStream] captured, in the order they reach the conversation. *)
Definition applyAll (us : list (jsstring * StreamUpdate))
    (prev : list ConversationTurn) : list ConversationTurn :=
  fold_left (fun c u => applyUpdate (fst u) (snd u) c) us prev.

Definition processStream (newTurnId : jsstring) (s : AnswerStream)
    (prev : list ConversationTurn) : list ConversationTurn :=
  applyAll (map (fun u => (newTurnId, u)) (streamUpdates s)) prev.

Definition newTurn (dateNow : N) (finalized : jsstring) : ConversationTurn :=
  {| id := toString dateNow; utterance := finalized; answer := Some [];
     answerError := None; isProcessingAnswer := true |}.

(** The body of the effect on [finalizedUtterance]; [dateNow] is what
    [Date.now()] returns. The stream it starts delivers its updates later. *)
Definition finalizedUtteranceEffect (dateNow : N) (sys : System) : System :=
  if truthy (finalizedUtterance (hook sys)) && isSessionActive (app sys) then
    {| hook := clearFinalizedUtterance (hook sys);
       app := set_conversation
                (conversation (app sys)
                 ++ [newTurn dateNow (finalizedUtterance (hook sys))])
                (app sys) |}
  else sys.

(** A render: the effect runs when one of its dependencies changed since
    it last ran. *)
Definition depsEqb (a b : jsstring * bool) : bool :=
  strictEq (fst a) (fst b) && Bool.eqb (snd a) (snd b).

Definition currentDeps (sys : System) : jsstring * bool :=
  (finalizedUtterance (hook sys), isSessionActive (app sys)).

Definition render (dateNow : N) (sys : System) : System :=
  let deps := currentDeps sys in
  let unchanged :=
    match effectDeps (app sys) with
    | Some old => depsEqb old deps
    | None => false
    end in
  if unchanged then sys
  else
    let sys := {| hook := hook sys;
                  app := set_effectDeps (Some deps) (app sys) |} in
    finalizedUtteranceEffect dateNow sys.

(** [handleToggleSession] *)
Definition handleToggleSession (outcome : StartOutcome) (sys : System) : System :=
  let a := app sys in
  let micPermission := hasPermission (hook sys) in
  let speechError := error (hook sys) in
  match apiKeyVerified a with
  | Some true =>
      match micPermission with
      | Some false =>
          {| hook := hook sys;
             app := set_globalError (Some (lit
               "Cannot start session: Microphone permission denied. Please enable it in browser settings.")) a |}
      | _ =>
          if negb (isSome micPermission)
             && truthy (orEmpty speechError)
             && includes (orEmpty speechError) (lit "not supported")
          then
            {| hook := hook sys;
               app := set_globalError (Some (lit
                 "Cannot start session: Microphone not supported by browser.")) a |}
          else
            let nextState := negb (isSessionActive a) in
            if nextState then
              {| hook := startListening outcome (hook sys);
                 app := set_isSessionActive nextState (set_globalError None a) |}
            else
              {| hook := stopListening (hook sys);
                 app := set_isSessionActive nextState a |}
      end
  | _ =>
      {| hook := hook sys;
         app := set_globalError (Some (lit
           "Cannot start session: API key not configured.")) a |}
  end.

(** [handleClearConversation]; [confirmed] is the answer to the dialog. *)
Definition handleClearConversation (confirmed : bool) (sys : System) : System :=
  if confirmed
  then {| hook := hook sys; app := set_conversation [] (app sys) |}
  else sys.

(** The effect that checks the API key of the environment. *)
Definition apiKeyEffect (keyConfigured : bool) (sys : System) : System :=
  if keyConfigured
  then {| hook := hook sys; app := set_apiKeyVerified (Some true) (app sys) |}
  else {| hook := hook sys;
          app := set_globalError (Some (lit
            "Gemini API key is not configured. Please set the API_KEY environment variable."))
            (set_apiKeyVerified (Some false) (app sys)) |}.

(** What can happen to the whole application. *)
Inductive systemStep : System -> System -> Prop :=
| sys_hook sys st' :
    hookStep (hook sys) st' -> systemStep sys {| hook := st'; app := app sys |}
| sys_render dateNow sys : systemStep sys (render dateNow sys)
| sys_toggle o sys : systemStep sys (handleToggleSession o sys)
| sys_clear confirmed sys : systemStep sys (handleClearConversation confirmed sys)
| sys_apiKey k sys : systemStep sys (apiKeyEffect k sys)
| sys_stream newTurnId u sys :
    systemStep sys
      {| hook := hook sys;
         app := set_conversation
                  (applyUpdate newTurnId u (conversation (app sys))) (app sys) |}.

Inductive systemReachable : System -> Prop :=
| sys_initial : systemReachable initialSystem
| sys_next sys sys' :
    systemReachable sys -> systemStep sys sys' -> systemReachable sys'.

(** ** The answer service ([services/geminiService]) *)

(** The client object; only the key it was built with matters here. *)
Record GoogleGenAI : Type := {
  apiKey : jsstring
}.

(** A thrown value: an [Error] with its message, or any other value. *)
Inductive Thrown : Type :=
| ErrorObject (message : jsstring)
| OtherValue.

(** What the SDK does with one request: the [text] of the chunks its
    stream yields, and the value it throws, if any (a rejected request
    throws before any chunk). *)
Record SdkResponse : Type := {
  sdkChunks : list (option jsstring);
  sdkThrown : option Thrown
}.

(** [getGenAI], with the module variable [ai] passed in and out; the
    environment variable [API_KEY] is a string or undefined. *)
Definition getGenAI (API_KEY : option jsstring) (ai : option GoogleGenAI)
    : (GoogleGenAI + Thrown) * option GoogleGenAI :=
  match ai with
  | Some client => (inl client, ai)
  | None =>
      if negb (truthy (orEmpty API_KEY)) then
        (inr (ErrorObject (lit "API_KEY environment variable not set.")), None)
      else
        let client := {| apiKey := orEmpty API_KEY |} in
        (inl client, Some client)
  end.

(** The [catch] block of [generateAnswerStream]: what is thrown on is
    always an [Error]; this is its message. *)
Definition streamErrorMessage (error : Thrown) : jsstring :=
  match error with
  | ErrorObject message => lit "Gemini API stream error: " ++ message
  | OtherValue =>
      lit "An unknown error occurred while streaming an answer from Gemini."
  end.

(** [generateAnswerStream]: the chunks it yields and how it ends, as the
    consumer sees them, and the module variable afterwards. [sdk] is
    [genAI.models.generateContentStream] followed by the iteration. *)
Definition generateAnswerStream (sdk : GoogleGenAI -> jsstring -> SdkResponse)
    (API_KEY : option jsstring) (question : jsstring) (ai : option GoogleGenAI)
    : AnswerStream * option GoogleGenAI :=
  match getGenAI API_KEY ai with
  | (inl genAI, ai) =>
      let response := sdk genAI question in
      ({| chunks := sdkChunks response;
          failure :=
            match sdkThrown response with
            | Some error => Some (Some (streamErrorMessage error))
            | None => None
            end |}, ai)
  | (inr error, ai) =>
      ({| chunks := []; failure := Some (Some (streamErrorMessage error)) |}, ai)
  end.

(** The test of the first effect of [App] on the environment variable:
    [typeof API_KEY === 'string' && API_KEY.trim() !== '']. *)
Definition apiKeyConfigured (API_KEY : option jsstring) : bool :=
  match API_KEY with
  | Some key => truthy (trim key)
  | None => false
  end.

Definition apiKeyCheck (API_KEY : option jsstring) (sys : System) : System :=
  apiKeyEffect (apiKeyConfigured API_KEY) sys.

(** ** The controls ([Controls]) *)

(** [micError && micError.includes('not supported')] as a test. *)
Definition notSupported (micError : option jsstring) : bool :=
  truthy (orEmpty micError) && includes (orEmpty micError) (lit "not supported").

(** The text [getStatus] shows. *)
Definition getStatus (hasMicPermission : option bool) (micError : option jsstring)
    (isInterviewActive isListening_ : bool) : jsstring :=
  match hasMicPermission with
  | Some false => lit "Mic permission denied."
  | _ =>
      if notSupported micError then lit "Mic not supported."
      else if truthy (orEmpty micError) then lit "Mic error."
      else if negb isInterviewActive then lit "Session paused or not started."
      else if isListening_ then lit "Listening for question..."
      else lit "Processing or idle..."
  end.

(** The [disabled] attribute of the session button. *)
Definition toggleDisabled (hasMicPermission : option bool) (micError : option jsstring)
    (isInterviewActive : bool) : bool :=
  (negb (isNotFalse hasMicPermission) || notSupported micError)
  && negb isInterviewActive.

(** [Controls] as [App] instantiates it. *)
Definition controlsStatus (sys : System) : jsstring :=
  getStatus (hasPermission (hook sys)) (error (hook sys))
    (isSessionActive (app sys)) (isListening (hook sys)).

Definition controlsToggleDisabled (sys : System) : bool :=
  toggleDisabled (hasPermission (hook sys)) (error (hook sys))
    (isSessionActive (app sys)).

(** ** The panel "Your Current Question" of [App] *)

Inductive PanelMessage : Type :=
| ShowInterim (text : jsstring)
| ListeningPrompt
| WelcomePrompt
| PausedPrompt
| ProcessingNote (text : jsstring)
| WaitingPrompt.

(** [conversation.find(t => t.isProcessingAnswer && t.utterance === finalizedUtterance)]
    as a test. *)
Definition processingTurnFound (sys : System) : bool :=
  existsb (fun t => isProcessingAnswer t
                    && strictEq (utterance t) (finalizedUtterance (hook sys)))
    (conversation (app sys)).

(** The paragraphs the panel renders, in order: each of the six
    conditional expressions contributes one when its condition holds. *)
Definition currentQuestionPanel (sys : System) : list PanelMessage :=
  let active := isSessionActive (app sys) in
  let listening := isListening (hook sys) in
  let interim := interimTranscript (hook sys) in
  let empty := match conversation (app sys) with [] => true | _ => false end in
  (if active && listening && truthy interim then [ShowInterim interim] else [])
  ++ (if active && listening && negb (truthy interim) then [ListeningPrompt] else [])
  ++ (if negb active && empty then [WelcomePrompt] else [])
  ++ (if negb active && negb empty then [PausedPrompt] else [])
  ++ (if active && negb listening && negb (truthy interim)
         && processingTurnFound sys
      then [ProcessingNote (finalizedUtterance (hook sys))] else [])
  ++ (if active && negb listening && negb (truthy interim)
         && negb (processingTurnFound sys)
      then [WaitingPrompt] else []).

(** A session in which one question was asked and answered, the effect
    having run for the current slot, with the hook as in [mumblingState]. *)
Definition answeredTurn : ConversationTurn :=
  {| id := toString 1718000000000; utterance := lit "how are you";
     answer := Some (lit "Fine."); answerError := None;
     isProcessingAnswer := false |}.

Definition mumblingSystem : System :=
  {| hook := mumblingState;
     app := {| apiKeyVerified := Some true; isSessionActive := true;
               conversation := [answeredTurn]; globalError := None;
               effectDeps := Some ([], true) |} |}.

(** An active session with permission granted and the text "hello "
    pending, a session in which permission has been denied, and a session
    that has just started. *)
Definition grantedSystem : System :=
  {| hook := set_hasPermission (Some true) listeningState;
     app := {| apiKeyVerified := Some true; isSessionActive := true;
               conversation := [answeredTurn]; globalError := None;
               effectDeps := Some ([], true) |} |}.

Definition deniedSystem : System :=
  {| hook := deniedState;
     app := {| apiKeyVerified := Some true; isSessionActive := true;
               conversation := [answeredTurn]; globalError := None;
               effectDeps := Some ([], true) |} |}.

Definition startedSystem : System :=
  {| hook := startedState;
     app := {| apiKeyVerified := Some true; isSessionActive := true;
               conversation := []; globalError := None;
               effectDeps := Some ([], true) |} |}.

(** ** Notions used by the properties *)

(** A string that does not start with white space. *)
Definition headClean (s : jsstring) : Prop :=
  match s with [] => True | c :: _ => isWhiteSpace c = false end.

(** The published value is empty, or non-empty and equal to its own trim. *)
Definition finalizedOk (s : jsstring) : Prop :=
  s = [] \/ (s <> [] /\ trim s = s).

Definition slotOk (st : State) : Prop := finalizedOk (finalizedUtterance st).

(** The final and the interim text of the new slots of a batch. *)
Definition finalText (slots : list SpeechRecognitionResult) : jsstring :=
  List.concat (map transcript (filter isFinal slots)).

Definition interimText (slots : list SpeechRecognitionResult) : jsstring :=
  List.concat (map transcript (filter (fun r => negb (isFinal r)) slots)).


(** A batch whose new slots are all final with an empty transcript. *)
Definition onlyEmptyFinals (event : SpeechRecognitionEvent) : Prop :=
  Forall (fun r => isFinal r = true /\ transcript r = []) (newSlots event).

(** The silence timer is armed: the ref holds a pending timer. *)
Definition timerArmed (st : State) : Prop :=
  exists tid deadline,
    utteranceFinalizationTimeoutRef st = Some tid
    /\ In (tid, deadline) (timers st).

(** What may happen to the hook while the platform keeps the microphone
    denied: every operation but a change of the permission state and the
    session-start callback (the platform starts no session without the
    microphone). *)
Inductive HookOp : Type :=
| OpStartListening (o : StartOutcome)
| OpStopListening
| OpClearFinalizedUtterance
| OpResult (event : SpeechRecognitionEvent)
| OpError (code : SpeechRecognitionErrorCode)
| OpEnd (self : Recognition) (o : StartOutcome)
| OpAdvance (t : N)
| OpInitEffect
| OpInitEffectCleanup
| OpPermissionEffect.

Definition runOp (op : HookOp) (st : State) : State :=
  match op with
  | OpStartListening o => startListening o st
  | OpStopListening => stopListening st
  | OpClearFinalizedUtterance => clearFinalizedUtterance st
  | OpResult event => onresult event st
  | OpError code => onerror code st
  | OpEnd self o => onend self o st
  | OpAdvance t => advance t st
  | OpInitEffect => initEffect st
  | OpInitEffectCleanup => initEffectCleanup st
  | OpPermissionEffect => permissionEffect st
  end.

Definition runOps (ops : list HookOp) (st : State) : State :=
  fold_left (fun s op => runOp op s) ops st.

Definition deniedIdle (st : State) : Prop :=
  hasPermission st = Some false /\ isListening st = false.

(** All final text of a sequence of timed batches, in arrival order. *)
Definition allFragments (batches : list (N * SpeechRecognitionEvent)) : jsstring :=
  List.concat (map (fun p => finalText (newSlots (snd p))) batches).

(** Each batch arrives no earlier than the one before it, and less than
    the silence timeout after it. *)
Fixpoint closelySpaced (previous : N) (batches : list (N * SpeechRecognitionEvent)) : Prop :=
  match batches with
  | [] => True
  | p :: rest =>
      previous <= fst p /\ fst p < previous + utteranceSilenceTimeoutMs
      /\ closelySpaced (fst p) rest
  end.

Fixpoint lastArrival (previous : N) (batches : list (N * SpeechRecognitionEvent)) : N :=
  match batches with
  | [] => previous
  | p :: rest => lastArrival (fst p) rest
  end.


(** One timer is pending, set at time [t], and the ref holds it. *)
Definition armedAt (t : N) (st : State) : Prop :=
  clock st = t
  /\ exists tid,
      utteranceFinalizationTimeoutRef st = Some tid
      /\ timers st = [(tid, t + utteranceSilenceTimeoutMs)].

(** At most one timer is pending, the one the ref holds. *)
Definition ownTimerOnly (st : State) : Prop :=
  timers st = []
  \/ exists tid deadline,
      utteranceFinalizationTimeoutRef st = Some tid
      /\ timers st = [(tid, deadline)].

(** What one tagged update does to one turn. *)
Definition stepTurn (u : jsstring * StreamUpdate) (turn : ConversationTurn) : ConversationTurn :=
  match snd u with
  | Chunk text =>
      if truthy (orEmpty text) then updateTurn (fst u) (snd u) turn else turn
  | _ => updateTurn (fst u) (snd u) turn
  end.

Definition stepsTurn (us : list (jsstring * StreamUpdate)) (turn : ConversationTurn) : ConversationTurn :=
  fold_left (fun t u => stepTurn u t) us turn.

(** What makes the hook finalize: the silence timer expiring, a stop, a
    permission error (which flushes), and an unsolicited session end. *)
Inductive FinalizationEvent : Type :=
| TimerExpiry (tid : TimerId)
| Stop
| FlushingError (service : bool)
| SessionEnd (self : Recognition) (o : StartOutcome).

Definition finalize (e : FinalizationEvent) (st : State) : State :=
  match e with
  | TimerExpiry tid => fireTimer tid st
  | Stop => stopListening st
  | FlushingError service =>
      onerror (if service then service_not_allowed else not_allowed) st
  | SessionEnd self o => onend self o st
  end.

(** A turn whose utterance is not empty and equals its own trim. *)
Definition utteranceOk (turn : ConversationTurn) : Prop :=
  utterance turn <> [] /\ trim (utterance turn) = utterance turn.

Definition systemOk (sys : System) : Prop :=
  slotOk (hook sys) /\ Forall utteranceOk (conversation (app sys)).

(** A batch with some text, interim or final, among its new slots. *)
Definition speech (p : N * SpeechRecognitionEvent) : Prop :=
  truthy (interimText (newSlots (snd p)))
  || truthy (finalText (newSlots (snd p))) = true.

(** The interim text of the last batch of a sequence. *)
Fixpoint lastInterim (previous : jsstring) (batches : list (N * SpeechRecognitionEvent)) : jsstring :=
  match batches with
  | [] => previous
  | p :: rest => lastInterim (interimText (newSlots (snd p))) rest
  end.

(** The log holds no call of [start()] or [stop()]. *)
Fixpoint noHandleCalls (tr : list Action) : bool :=
  match tr with
  | [] => true
  | CallStart _ :: _ => false
  | CallStop _ :: _ => false
  | _ :: r => noHandleCalls r
  end.

(** [a] is a prefix of [b]. *)
Definition isPrefix {A : Type} (a b : list A) : Prop := exists c, b = a ++ c.

(** The guards of [handleToggleSession] as one test. *)
Definition toggleRefused (sys : System) : bool :=
  match apiKeyVerified (app sys) with
  | Some true =>
      match hasPermission (hook sys) with
      | Some false => true
      | Some true => false
      | None => notSupported (error (hook sys))
      end
  | _ => true
  end.

(** ** Facts about [trim] *)
Section TrimFacts.

Lemma strictEq_refl (a : jsstring) : strictEq a a = true.
Proof.
  induction a as [|x a IH]; simpl; [reflexivity|].
  now rewrite N.eqb_refl, IH.
Qed.

Lemma strictEq_eq (a b : jsstring) : strictEq a b = true <-> a = b.
Proof.
  split.
  - revert b; induction a as [|x a IH]; destruct b as [|y b]; simpl;
      try discriminate; auto.
    intros H. apply andb_true_iff in H as [Hxy Hab].
    apply N.eqb_eq in Hxy. f_equal; auto.
  - intros ->. apply strictEq_refl.
Qed.

Lemma truthy_nonempty (s : jsstring) : truthy s = true <-> s <> [].
Proof. destruct s; simpl; split; congruence. Qed.

Lemma truthy_false (s : jsstring) : truthy s = false <-> s = [].
Proof. destruct s; simpl; split; congruence. Qed.

Lemma truthy_app (a b : jsstring) : truthy (a ++ b) = truthy a || truthy b.
Proof. destruct a; simpl; reflexivity. Qed.

Lemma trimStart_headClean (s : jsstring) : headClean (trimStart s).
Proof.
  induction s as [|c r IH]; simpl; [exact I|].
  destruct (isWhiteSpace c) eqn:E; [exact IH | exact E].
Qed.

Lemma trimStart_fixed (s : jsstring) : headClean s -> trimStart s = s.
Proof. destruct s as [|c r]; simpl; [reflexivity|]. now intros ->. Qed.

Lemma trimStart_suffix (s : jsstring) :
  exists p, s = p ++ trimStart s /\ forallb isWhiteSpace p = true.
Proof.
  induction s as [|c r [p [Hp Hw]]]; simpl.
  - exists []; now split.
  - destruct (isWhiteSpace c) eqn:E.
    + exists (c :: p); simpl; rewrite E, Hw; split; [now f_equal | reflexivity].
    + exists []; now split.
Qed.

Lemma trimStart_idem (s : jsstring) : trimStart (trimStart s) = trimStart s.
Proof. apply trimStart_fixed, trimStart_headClean. Qed.

Lemma trimEnd_idem (s : jsstring) : trimEnd (trimEnd s) = trimEnd s.
Proof. unfold trimEnd. now rewrite rev_involutive, trimStart_idem. Qed.

(** Stripping leading white space keeps a clean end. *)
Lemma headClean_last (s : jsstring) :
  headClean (rev s) -> headClean (rev (trimStart s)).
Proof.
  intros H. destruct (trimStart_suffix s) as [p [Hp _]].
  destruct (trimStart s) as [|c r] eqn:E; [exact I|].
  rewrite Hp in H. rewrite rev_app_distr in H.
  destruct (rev (c :: r)) as [|d q] eqn:R.
  - exact I.
  - simpl in H. exact H.
Qed.

Lemma trimEnd_lastClean (s : jsstring) : headClean (rev (trimEnd s)).
Proof. unfold trimEnd. rewrite rev_involutive. apply trimStart_headClean. Qed.

(** Stripping trailing white space keeps a clean head. *)
Lemma trimEnd_headClean (s : jsstring) : headClean s -> headClean (trimEnd s).
Proof.
  intros H. unfold trimEnd.
  apply headClean_last. now rewrite rev_involutive.
Qed.

Lemma trim_headClean (s : jsstring) : headClean (trim s).
Proof. apply trimEnd_headClean, trimStart_headClean. Qed.

Lemma trim_idem (s : jsstring) : trim (trim s) = trim s.
Proof.
  unfold trim at 1. rewrite (trimStart_fixed (trim s)) by apply trim_headClean.
  unfold trim. apply trimEnd_idem.
Qed.

Lemma trim_nil : trim [] = [].
Proof. reflexivity. Qed.

End TrimFacts.

(** Case analysis on the tests of a handler, reusing what is already known
    of a scrutinee. *)
Ltac break_tests :=
  repeat (simpl;
          match goal with
          | H : ?x = _ |- context [match ?x with _ => _ end] => rewrite H
          | |- context [match ?x with _ => _ end] => destruct x eqn:?
          end);
  simpl.

(** ** The log of operations *)
Section TraceFacts.

Lemma finalizations_app (a b : list Action) :
  finalizations (a ++ b) = finalizations a ++ finalizations b.
Proof.
  induction a as [|x a IH]; simpl; [reflexivity|].
  destruct x; simpl; auto.
  destruct (truthy s); simpl; now rewrite IH.
Qed.

Lemma startCalls_app (a b : list Action) :
  startCalls (a ++ b) = startCalls a ++ startCalls b.
Proof.
  induction a as [|x a IH]; simpl; [reflexivity|].
  destruct x; simpl; auto. now rewrite IH.
Qed.

End TraceFacts.

(** ** The timer delay and the closed-over [isListening] *)
Section Closures.

(** A delay below 2^31 ms is taken as it is. *)
Lemma timerDelay_small (delay : N) :
  delay < 2147483648 -> timerDelay delay = delay.
Proof.
  intros H. unfold timerDelay.
  rewrite N.mod_small by lia.
  apply N.ltb_lt in H. now rewrite H.
Qed.

(** The callback of a render behaves as [stopListening] does in a state
    whose [isListening] is the value it closed over. *)
Lemma stopListeningOf_eq (isListening_ : bool) (st : State) :
  stopListeningOf isListening_ st
  = stopListening (set_isListening isListening_ st).
Proof.
  unfold stopListeningOf, stopListening, processCurrentUtterance,
    recognitionStop.
  destruct st as [lis itr fu err perm rref ms cur tref tms ntid nhid clk tr].
  simpl. destruct tref; simpl; destruct (truthy (trim cur)); simpl;
    destruct rref, isListening_; reflexivity.
Qed.

End Closures.

(** ** Finalization: [processCurrentUtterance] *)
Section Finalization.

Lemma finalizedOk_trim (s : jsstring) : truthy (trim s) = true -> finalizedOk (trim s).
Proof.
  intros H. right. split; [now apply truthy_nonempty | apply trim_idem].
Qed.

(** The four ways through [processCurrentUtterance]. *)
Ltac pcu_cases st :=
  unfold processCurrentUtterance;
  let E := fresh "Etrim" in
  let R := fresh "Eref" in
  destruct (truthy (trim (currentUtteranceRef st))) eqn:E; simpl;
  destruct (utteranceFinalizationTimeoutRef st) eqn:R; simpl.

(** With nothing but white space accumulated only the timer is dropped. *)
Lemma processCurrentUtterance_blank (st : State) :
  trim (currentUtteranceRef st) = [] ->
  processCurrentUtterance st =
  match utteranceFinalizationTimeoutRef st with
  | Some tid => set_utteranceFinalizationTimeoutRef None (clearTimeout tid st)
  | None => st
  end.
Proof. intros H. unfold processCurrentUtterance. now rewrite H. Qed.

Lemma processCurrentUtterance_finalized (st : State) :
  finalizedUtterance (processCurrentUtterance st) =
  if truthy (trim (currentUtteranceRef st))
  then trim (currentUtteranceRef st) else finalizedUtterance st.
Proof. pcu_cases st; reflexivity. Qed.

Lemma processCurrentUtterance_current (st : State) :
  currentUtteranceRef (processCurrentUtterance st) =
  if truthy (trim (currentUtteranceRef st)) then [] else currentUtteranceRef st.
Proof. pcu_cases st; reflexivity. Qed.

Lemma processCurrentUtterance_finalizations (st : State) :
  finalizations (trace (processCurrentUtterance st)) =
  finalizations (trace st)
  ++ (if truthy (trim (currentUtteranceRef st))
      then [trim (currentUtteranceRef st)] else []).
Proof.
  pcu_cases st; rewrite ?finalizations_app; simpl;
    rewrite ?Etrim, ?app_nil_r; reflexivity.
Qed.

Lemma processCurrentUtterance_startCalls (st : State) :
  startCalls (trace (processCurrentUtterance st)) = startCalls (trace st).
Proof.
  pcu_cases st; rewrite ?startCalls_app; simpl; rewrite ?app_nil_r; reflexivity.
Qed.

(** The cells [processCurrentUtterance] does not write. *)
Lemma processCurrentUtterance_frame (st : State) :
  let st' := processCurrentUtterance st in
  isListening st' = isListening st /\ error st' = error st
  /\ hasPermission st' = hasPermission st
  /\ recognitionRef st' = recognitionRef st
  /\ manualStopRef st' = manualStopRef st
  /\ utteranceFinalizationTimeoutRef st' = None
  /\ clock st' = clock st /\ nextTimerId st' = nextTimerId st
  /\ nextHandleId st' = nextHandleId st.
Proof. pcu_cases st; rewrite ?Eref; repeat split; reflexivity. Qed.

Lemma processCurrentUtterance_timers (st : State) :
  timers (processCurrentUtterance st) =
  match utteranceFinalizationTimeoutRef st with
  | Some tid => filter (fun p => negb (Pos.eqb (fst p) tid)) (timers st)
  | None => timers st
  end.
Proof. pcu_cases st; reflexivity. Qed.

Lemma processCurrentUtterance_ok (st : State) :
  finalizedOk (finalizedUtterance st) ->
  finalizedOk (finalizedUtterance (processCurrentUtterance st)).
Proof.
  intros H. rewrite processCurrentUtterance_finalized.
  destruct (truthy (trim (currentUtteranceRef st))) eqn:E; [|exact H].
  now apply finalizedOk_trim.
Qed.

End Finalization.

(** ** The finalized-utterance slot is empty or trimmed *)
Section FinalizedInvariant.

Arguments processCurrentUtterance : simpl never.

Lemma slotOk_initial : slotOk initialState.
Proof. now left. Qed.

Lemma slotOk_processCurrentUtterance (st : State) :
  slotOk st -> slotOk (processCurrentUtterance st).
Proof. apply processCurrentUtterance_ok. Qed.

Lemma slotOk_clearFinalizedUtterance (st : State) :
  slotOk (clearFinalizedUtterance st).
Proof. now left. Qed.

Lemma slotOk_startListening (o : StartOutcome) (st : State) :
  slotOk (startListening o st).
Proof.
  unfold slotOk, startListening, initializeRecognition, recognitionStart.
  simpl. destruct (recognitionRef st); simpl.
  - destruct (isListening st), (hasPermission st) as [[|]|], o; simpl; now left.
  - destruct speechRecognitionAvailable; simpl; [|now left].
    destruct (isListening st), (hasPermission st) as [[|]|], o; simpl; now left.
Qed.

Lemma slotOk_stopListening (st : State) : slotOk st -> slotOk (stopListening st).
Proof.
  intros H. unfold slotOk, stopListening, recognitionStop. simpl.
  match goal with
  | |- context [processCurrentUtterance ?x] =>
      assert (Hx : slotOk (processCurrentUtterance x))
        by (apply slotOk_processCurrentUtterance;
            unfold slotOk; destruct (utteranceFinalizationTimeoutRef st); exact H);
      destruct (processCurrentUtterance_frame x) as (_ & _ & _ & Hr & _);
      cbv zeta in Hr; rewrite Hr
  end.
  destruct (utteranceFinalizationTimeoutRef st); simpl in *;
    destruct (recognitionRef st), (isListening st); simpl; exact Hx.
Qed.

Lemma slotOk_onresult (event : SpeechRecognitionEvent) (st : State) :
  slotOk st -> slotOk (onresult event st).
Proof.
  intros H. unfold slotOk, onresult.
  destruct (scanResults (newSlots event) [] []) as [interim fin].
  destruct (truthy fin), (truthy interim); simpl;
    destruct (utteranceFinalizationTimeoutRef st); simpl; exact H.
Qed.

Lemma slotOk_onerror (code : SpeechRecognitionErrorCode) (st : State) :
  slotOk st -> slotOk (onerror code st).
Proof.
  intros H. unfold slotOk, onerror.
  destruct code; simpl; try exact H;
    apply slotOk_processCurrentUtterance; exact H.
Qed.

Lemma slotOk_onend (self : Recognition) (o : StartOutcome) (st : State) :
  slotOk st -> slotOk (onend self o st).
Proof.
  intros H. unfold onend.
  set (st1 := if negb (manualStopRef (set_isListening false st))
              then processCurrentUtterance (set_isListening false st)
              else set_isListening false st).
  assert (H1 : slotOk st1).
  { unfold st1. destruct (negb (manualStopRef (set_isListening false st)));
      [apply slotOk_processCurrentUtterance|]; exact H. }
  unfold recognitionStart.
  destruct (negb (manualStopRef st1) && isNotFalse (capturedHasPermission self)
            && isSome (recognitionRef st1)); [|exact H1].
  destruct (negb (manualStopRef st1)); [|exact H1].
  destruct (recognitionRef st1); exact H1.
Qed.

Lemma slotOk_fireTimer (tid : TimerId) (st : State) :
  slotOk st -> slotOk (fireTimer tid st).
Proof.
  intros H. unfold fireTimer. destruct (isPending tid st); [|exact H].
  apply slotOk_processCurrentUtterance. exact H.
Qed.

Lemma slotOk_fireAll (tids : list TimerId) (st : State) :
  slotOk st -> slotOk (fireAll tids st).
Proof.
  revert st. induction tids as [|tid rest IH]; intros st H; simpl; [exact H|].
  apply IH, slotOk_fireTimer, H.
Qed.

Lemma slotOk_advance (t : N) (st : State) : slotOk st -> slotOk (advance t st).
Proof. intros H. unfold advance. apply slotOk_fireAll. exact H. Qed.

Lemma slotOk_initEffect (st : State) : slotOk st -> slotOk (initEffect st).
Proof.
  intros H. unfold slotOk, initEffect, initializeRecognition.
  destruct (hasPermission st), (recognitionRef st); try exact H.
  destruct speechRecognitionAvailable; exact H.
Qed.

Lemma slotOk_initEffectCleanup (st : State) :
  slotOk st -> slotOk (initEffectCleanup st).
Proof.
  intros H. unfold slotOk, initEffectCleanup, recognitionStop.
  break_tests; exact H.
Qed.

Lemma slotOk_permissionOnChange (isListening_ : bool) (s : PermissionState)
    (st : State) :
  slotOk st -> slotOk (permissionOnChange isListening_ s st).
Proof.
  intros H. unfold permissionOnChange.
  destruct (negb (isGranted s)); [|exact H].
  destruct isListening_; [|exact H].
  rewrite stopListeningOf_eq. apply slotOk_stopListening. exact H.
Qed.

Lemma hookStep_slotOk (st st' : State) :
  hookStep st st' -> slotOk st -> slotOk st'.
Proof.
  intros Hs H. destruct Hs.
  - apply slotOk_startListening.
  - now apply slotOk_stopListening.
  - apply slotOk_clearFinalizedUtterance.
  - exact H.
  - now apply slotOk_onresult.
  - now apply slotOk_onerror.
  - now apply slotOk_onend.
  - now apply slotOk_advance.
  - now apply slotOk_initEffect.
  - now apply slotOk_initEffectCleanup.
  - unfold slotOk, permissionEffect.
    destruct (hasPermission st); [exact H|].
    destruct (negb speechRecognitionAvailable); exact H.
  - unfold slotOk, permissionQueryResolved. destruct s; exact H.
  - now apply slotOk_permissionOnChange.
Qed.

Lemma hookReachable_slotOk (st : State) : hookReachable st -> slotOk st.
Proof.
  induction 1 as [|st st' _ IH Hs]; [apply slotOk_initial|].
  exact (hookStep_slotOk st st' Hs IH).
Qed.

End FinalizedInvariant.

(** C10: in every reachable state of the hook the published
    [finalizedUtterance] is a string (its cell holds no null) that is either
    empty or non-empty and equal to its own trim; and
    [clearFinalizedUtterance] sets it to the empty string and leaves every
    other cell, ref and timer as it was. *)
Theorem finalizedUtterance_empty_or_trimmed :
  (forall st : State,
      hookReachable st ->
      finalizedUtterance st = []
      \/ (finalizedUtterance st <> []
          /\ trim (finalizedUtterance st) = finalizedUtterance st))
  /\ (forall st : State,
         let st' := clearFinalizedUtterance st in
         finalizedUtterance st' = []
         /\ isListening st' = isListening st
         /\ interimTranscript st' = interimTranscript st
         /\ error st' = error st
         /\ hasPermission st' = hasPermission st
         /\ recognitionRef st' = recognitionRef st
         /\ manualStopRef st' = manualStopRef st
         /\ currentUtteranceRef st' = currentUtteranceRef st
         /\ utteranceFinalizationTimeoutRef st' = utteranceFinalizationTimeoutRef st
         /\ timers st' = timers st
         /\ nextTimerId st' = nextTimerId st
         /\ nextHandleId st' = nextHandleId st
         /\ clock st' = clock st
         /\ trace st' = trace st ++ [SetFinalizedUtterance []]).
Proof.
  split.
  - intros st H. exact (hookReachable_slotOk st H).
  - intros st. simpl. repeat split; reflexivity.
Qed.

(** ** Result batches *)
Section ResultBatches.

Lemma scanResults_spec (slots : list SpeechRecognitionResult) :
  forall interim fin,
    scanResults slots interim fin =
    (interim ++ interimText slots, fin ++ finalText slots).
Proof.
  unfold finalText, interimText.
  induction slots as [|r rest IH]; intros interim fin; simpl.
  - now rewrite !app_nil_r.
  - destruct (isFinal r); simpl; rewrite IH, <- app_assoc; reflexivity.
Qed.


Lemma onlyEmptyFinals_texts (event : SpeechRecognitionEvent) :
  onlyEmptyFinals event ->
  interimText (newSlots event) = [] /\ finalText (newSlots event) = [].
Proof.
  unfold onlyEmptyFinals, interimText, finalText.
  induction 1 as [|r rest [Hf Ht] _ [IHi IHf]]; simpl; [now split|].
  rewrite Hf; simpl. now rewrite Ht, IHf.
Qed.

End ResultBatches.

(** C3 (amended): a batch whose new slots are all final results with the
    empty transcript sets the interim transcript to the empty string and
    does nothing else: the accumulated text, the finalized slot and the log
    are untouched and the silence timer is neither armed nor cancelled. *)
Theorem onresult_empty_finals_only_clears_interim
    (event : SpeechRecognitionEvent) (st : State) :
  onlyEmptyFinals event ->
  onresult event st = set_interimTranscript [] st
  /\ timers (onresult event st) = timers st
  /\ utteranceFinalizationTimeoutRef (onresult event st)
     = utteranceFinalizationTimeoutRef st
  /\ trace (onresult event st) = trace st.
Proof.
  intros H. destruct (onlyEmptyFinals_texts event H) as [Hi Hf].
  assert (E : onresult event st = set_interimTranscript [] st).
  { unfold onresult. rewrite scanResults_spec, Hi, Hf. reflexivity. }
  rewrite E. repeat split; reflexivity.
Qed.

(** C2 (amended): [startListening] called while listening, or while
    permission is denied, never invokes [start()] and leaves [isListening]
    and the silence timer as they were, but it is no no-op: the accumulated
    text, the interim transcript and the finalized slot become the empty
    string and the manual-stop flag is cleared. While denied and not
    listening, with a recognition instance at hand or obtainable, the
    permission error is surfaced; while listening with an instance at hand,
    the error and the permission are left alone. *)
Theorem startListening_listening_or_denied (o : StartOutcome) (st : State) :
  isListening st = true \/ hasPermission st = Some false ->
  let st' := startListening o st in
  startCalls (trace st') = startCalls (trace st)
  /\ isListening st' = isListening st
  /\ timers st' = timers st
  /\ utteranceFinalizationTimeoutRef st' = utteranceFinalizationTimeoutRef st
  /\ currentUtteranceRef st' = []
  /\ interimTranscript st' = []
  /\ finalizedUtterance st' = []
  /\ manualStopRef st' = false
  /\ (hasPermission st = Some false -> isListening st = false ->
      speechRecognitionAvailable = true \/ recognitionRef st <> None ->
      error st' = Some (lit "Cannot start listening: Microphone permission was denied.")
      /\ hasPermission st' = Some false)
  /\ (isListening st = true -> recognitionRef st <> None ->
      error st' = error st /\ hasPermission st' = hasPermission st).
Proof.
  intros H. unfold startListening, initializeRecognition, recognitionStart.
  simpl.
  destruct (recognitionRef st) as [h|] eqn:Er; simpl;
    [|destruct speechRecognitionAvailable eqn:Ea; simpl];
    destruct (isListening st) eqn:El; simpl;
    try (destruct H as [H|H]; [discriminate|]; rewrite H; simpl);
    rewrite ?startCalls_app; simpl; rewrite ?app_nil_r;
    repeat split; intros; try reflexivity; try congruence;
    intuition congruence.
Qed.

(** C5: [stopListening] with accumulated text that trims to a non-empty
    string publishes the trimmed text at once, without the clock moving:
    the slot holds it, the accumulated text is emptied, the silence timer
    the ref held is cancelled and the ref cleared. In program order the
    manual-stop flag is written first, then the timer is cleared, then the
    utterance is published, and only then is [stop()] invoked on the handle
    (when there is one and the hook was listening). *)
Theorem stopListening_finalizes_immediately (st : State) :
  trim (currentUtteranceRef st) <> [] ->
  let st' := stopListening st in
  finalizedUtterance st' = trim (currentUtteranceRef st)
  /\ currentUtteranceRef st' = []
  /\ interimTranscript st' = []
  /\ manualStopRef st' = true
  /\ isListening st' = false
  /\ utteranceFinalizationTimeoutRef st' = None
  /\ timers st' =
     match utteranceFinalizationTimeoutRef st with
     | Some tid => filter (fun p => negb (Pos.eqb (fst p) tid)) (timers st)
     | None => timers st
     end
  /\ clock st' = clock st
  /\ trace st' =
     trace st
     ++ [WriteManualStop true]
     ++ match utteranceFinalizationTimeoutRef st with
        | Some tid => [CallClearTimeout tid]
        | None => []
        end
     ++ [SetFinalizedUtterance (trim (currentUtteranceRef st))]
     ++ match recognitionRef st with
        | Some current =>
            if isListening st then [CallStop (handleId current)] else []
        | None => []
        end.
Proof.
  intros H. apply truthy_nonempty in H.
  unfold stopListening, processCurrentUtterance, recognitionStop.
  destruct st as [lis itr fu err perm rref ms cur tref tms ntid nhid clk tr].
  simpl in *.
  destruct tref as [tid|]; simpl; rewrite H; simpl;
    destruct rref as [h|]; simpl; destruct lis; simpl;
    rewrite <- ?app_assoc; simpl; rewrite ?app_nil_r;
    repeat split; reflexivity.
Qed.

(** ** Session end *)
Section SessionEnd.

Lemma onend_startCalls (self : Recognition) (o : StartOutcome) (st : State) :
  startCalls (trace (onend self o st)) =
  startCalls (trace st)
  ++ match recognitionRef st with
     | Some current =>
         if negb (manualStopRef st) && isNotFalse (capturedHasPermission self)
         then [handleId current] else []
     | None => []
     end.
Proof.
  unfold onend, recognitionStart.
  destruct (manualStopRef st) eqn:Em; simpl; rewrite ?Em; simpl; rewrite ?Em; simpl.
  - destruct (recognitionRef st); now rewrite app_nil_r.
  - destruct (processCurrentUtterance_frame (set_isListening false st))
      as (_ & _ & _ & Hr & Hm & _).
    cbv zeta in Hr, Hm. simpl in Hr, Hm. rewrite ?Hm, ?Hr, ?Em. simpl.
    destruct (isNotFalse (capturedHasPermission self)); simpl;
      destruct (recognitionRef st) as [h|] eqn:Er; simpl;
      rewrite ?Hr, ?startCalls_app, processCurrentUtterance_startCalls;
      simpl; rewrite ?app_nil_r; reflexivity.
Qed.

Lemma stopListening_manualStop (st : State) :
  manualStopRef (stopListening st) = true.
Proof.
  unfold stopListening, processCurrentUtterance, recognitionStop.
  destruct st as [lis itr fu err perm rref ms cur tref tms ntid nhid clk tr].
  simpl. destruct tref; simpl; destruct (truthy (trim cur)); simpl;
    destruct rref; simpl; destruct lis; reflexivity.
Qed.

End SessionEnd.

(** C4: when the session-end callback of the attached instance runs with
    the manual-stop flag clear and the permission its handlers hold not
    denied, [start()] is invoked exactly once, on that same instance; with
    the flag set (as [stopListening] sets it) it is not invoked; and no end
    event invokes it more than once. *)
Theorem onend_restarts_at_most_once
    (self : Recognition) (o : StartOutcome) (st : State) :
  (manualStopRef st = false ->
   capturedHasPermission self <> Some false ->
   recognitionRef st = Some self ->
   startCalls (trace (onend self o st)) = startCalls (trace st) ++ [handleId self])
  /\ (manualStopRef st = true ->
      startCalls (trace (onend self o st)) = startCalls (trace st))
  /\ startCalls (trace (onend self o (stopListening st)))
     = startCalls (trace (stopListening st))
  /\ (exists restarts,
         startCalls (trace (onend self o st)) = startCalls (trace st) ++ restarts
         /\ (length restarts <= 1)%nat).
Proof.
  repeat split.
  - intros Hm Hp Hr. rewrite onend_startCalls, Hr, Hm. simpl.
    destruct (capturedHasPermission self) as [[|]|]; simpl;
      try reflexivity. now contradiction Hp.
  - intros Hm. rewrite onend_startCalls, Hm. simpl.
    destruct (recognitionRef st); now rewrite app_nil_r.
  - rewrite onend_startCalls, stopListening_manualStop.
    destruct (recognitionRef (stopListening st)); cbn [negb andb];
      apply app_nil_r.
  - rewrite onend_startCalls. eexists; split; [reflexivity|].
    destruct (recognitionRef st); simpl; [|lia].
    destruct (negb (manualStopRef st) && isNotFalse (capturedHasPermission self));
      simpl; lia.
Qed.

(** ** Denied permission *)
Section Denied.

Lemma deniedIdle_processCurrentUtterance (st : State) :
  deniedIdle st -> deniedIdle (processCurrentUtterance st).
Proof.
  intros [Hp Hl].
  destruct (processCurrentUtterance_frame st) as (Hl' & _ & Hp' & _).
  cbv zeta in Hl', Hp'. split; congruence.
Qed.

Lemma deniedIdle_fireAll (tids : list TimerId) (st : State) :
  deniedIdle st -> deniedIdle (fireAll tids st).
Proof.
  revert st. induction tids as [|tid rest IH]; intros st H; simpl; [exact H|].
  apply IH. unfold fireTimer. destruct (isPending tid st); [|exact H].
  apply deniedIdle_processCurrentUtterance. exact H.
Qed.

Lemma startListening_denied (o : StartOutcome) (st : State) :
  hasPermission st = Some false ->
  hasPermission (startListening o st) = Some false
  /\ isListening (startListening o st) = isListening st
  /\ startCalls (trace (startListening o st)) = startCalls (trace st).
Proof.
  intros H. unfold startListening, initializeRecognition, recognitionStart.
  simpl. rewrite H.
  destruct (recognitionRef st); simpl;
    [|destruct speechRecognitionAvailable; simpl];
    destruct (isListening st) eqn:El; simpl;
    rewrite ?startCalls_app; simpl; rewrite ?app_nil_r; auto.
Qed.

Lemma deniedIdle_stopListening (st : State) :
  deniedIdle st -> deniedIdle (stopListening st).
Proof.
  intros [Hp Hl]. unfold deniedIdle, stopListening, recognitionStop.
  simpl.
  match goal with
  | |- context [processCurrentUtterance ?x] =>
      destruct (processCurrentUtterance_frame x) as (_ & _ & Hp' & Hr & _);
      cbv zeta in Hp', Hr; rewrite Hr;
      assert (Hx : hasPermission (processCurrentUtterance x) = Some false)
        by (rewrite Hp'; destruct (utteranceFinalizationTimeoutRef st); exact Hp)
  end.
  split; [|reflexivity].
  destruct (utteranceFinalizationTimeoutRef st); simpl in *;
    destruct (recognitionRef st), (isListening st); simpl; exact Hx.
Qed.

Lemma deniedIdle_runOp (op : HookOp) (st : State) :
  deniedIdle st -> deniedIdle (runOp op st).
Proof.
  intros H. pose proof H as [Hp Hl]. destruct op; simpl.
  - destruct (startListening_denied o st Hp) as (H1 & H2 & _).
    split; congruence.
  - now apply deniedIdle_stopListening.
  - exact H.
  - unfold deniedIdle, onresult.
    destruct (scanResults (newSlots event) [] []) as [interim fin].
    destruct (truthy fin), (truthy interim); simpl;
      destruct (utteranceFinalizationTimeoutRef st); simpl; exact H.
  - unfold onerror. destruct code; simpl; try (split; [exact Hp|reflexivity]).
    + destruct (processCurrentUtterance_frame
                  (writeManualStop true (set_hasPermission (Some false)
                     (set_error (Some (lit
                        "Microphone permission denied. Please enable microphone access in your browser settings.")) st))))
        as (_ & _ & Hp' & _).
      split; [exact Hp' | reflexivity].
    + destruct (processCurrentUtterance_frame
                  (writeManualStop true (set_hasPermission (Some false)
                     (set_error (Some (lit
                        "Microphone permission denied. Please enable microphone access in your browser settings.")) st))))
        as (_ & _ & Hp' & _).
      split; [exact Hp' | reflexivity].
  - unfold onend.
    set (st1 := if negb (manualStopRef (set_isListening false st))
                then processCurrentUtterance (set_isListening false st)
                else set_isListening false st).
    assert (H1 : deniedIdle st1).
    { unfold st1. destruct (negb (manualStopRef (set_isListening false st)));
        [apply deniedIdle_processCurrentUtterance|];
        (split; [exact Hp | reflexivity]). }
    unfold recognitionStart.
    destruct (negb (manualStopRef st1) && isNotFalse (capturedHasPermission self)
              && isSome (recognitionRef st1)); [|exact H1].
    destruct (negb (manualStopRef st1)); [|exact H1].
    destruct (recognitionRef st1); exact H1.
  - unfold advance. apply deniedIdle_fireAll. exact H.
  - unfold initEffect. rewrite Hp. exact H.
  - unfold deniedIdle, initEffectCleanup, recognitionStop.
    break_tests; split; assumption.
  - unfold permissionEffect. rewrite Hp. exact H.
Qed.

Lemma deniedIdle_runOps (ops : list HookOp) (st : State) :
  deniedIdle st -> deniedIdle (runOps ops st).
Proof.
  unfold runOps. revert st.
  induction ops as [|op rest IH]; intros st H; simpl; [exact H|].
  apply IH, deniedIdle_runOp, H.
Qed.

Lemma startListening_deniedIdle_error (o : StartOutcome) (st : State) :
  speechRecognitionAvailable = true ->
  deniedIdle st ->
  error (startListening o st)
  = Some (lit "Cannot start listening: Microphone permission was denied.").
Proof.
  intros Ha [Hp Hl]. unfold startListening, initializeRecognition.
  simpl. rewrite Hp, Hl, Ha.
  destruct (recognitionRef st); reflexivity.
Qed.

End Denied.

(** C7: a [not-allowed] or [service-not-allowed] error records the
    permission as denied, sets the manual-stop flag so that the session end
    that follows restarts nothing, flushes the accumulated text, and
    surfaces the permission-denied message. From then on, whatever else
    happens to the hook short of a change of the permission state, every
    [startListening] returns early with the permission error and without
    invoking [start()], and the permission stays denied. *)
Theorem not_allowed_blocks_start
    (code : SpeechRecognitionErrorCode) (st : State)
    (ops : list HookOp) (o : StartOutcome) :
  speechRecognitionAvailable = true ->
  code = not_allowed \/ code = service_not_allowed ->
  let pending := currentUtteranceRef st in
  let st1 := onerror code st in
  let st2 := runOps ops st1 in
  let st3 := startListening o st2 in
  hasPermission st1 = Some false
  /\ manualStopRef st1 = true
  /\ isListening st1 = false
  /\ error st1 = Some (lit
       "Microphone permission denied. Please enable microphone access in your browser settings.")
  /\ finalizedUtterance st1
     = (if truthy (trim pending) then trim pending else finalizedUtterance st)
  /\ currentUtteranceRef st1 = (if truthy (trim pending) then [] else pending)
  /\ utteranceFinalizationTimeoutRef st1 = None
  /\ finalizations (trace st1)
     = finalizations (trace st)
       ++ (if truthy (trim pending) then [trim pending] else [])
  /\ (forall self o',
         startCalls (trace (onend self o' st1)) = startCalls (trace st1))
  /\ hasPermission st2 = Some false
  /\ error st3
     = Some (lit "Cannot start listening: Microphone permission was denied.")
  /\ hasPermission st3 = Some false
  /\ startCalls (trace st3) = startCalls (trace st2).
Proof.
  intros Ha Hc pending st1 st2 st3.
  set (msg := Some (lit
    "Microphone permission denied. Please enable microphone access in your browser settings.")).
  set (pre := writeManualStop true (set_hasPermission (Some false) (set_error msg st))).
  assert (E1 : st1 = set_isListening false (processCurrentUtterance pre))
    by (unfold st1; destruct Hc; subst code; reflexivity).
  destruct (processCurrentUtterance_frame pre)
    as (_ & He & Hp & _ & Hm & Ht & _).
  cbv zeta in He, Hp, Hm, Ht.
  assert (Hd : deniedIdle st1) by (rewrite E1; split; [exact Hp | reflexivity]).
  assert (Hd2 : deniedIdle st2) by (apply deniedIdle_runOps, Hd).
  destruct (startListening_denied o st2 (proj1 Hd2)) as (H31 & _ & H33).
  assert (Hm1 : manualStopRef st1 = true) by (rewrite E1; exact Hm).
  assert (He1 : error st1 = msg) by (rewrite E1; exact He).
  assert (Hf1 : finalizedUtterance st1
                = (if truthy (trim pending) then trim pending
                   else finalizedUtterance st))
    by (rewrite E1; exact (processCurrentUtterance_finalized pre)).
  assert (Hc1 : currentUtteranceRef st1
                = (if truthy (trim pending) then [] else pending))
    by (rewrite E1; exact (processCurrentUtterance_current pre)).
  assert (Ht1 : utteranceFinalizationTimeoutRef st1 = None)
    by (rewrite E1; exact Ht).
  assert (Hz1 : finalizations (trace st1)
                = finalizations (trace st)
                  ++ (if truthy (trim pending) then [trim pending] else [])).
  { rewrite E1.
    change (trace (set_isListening false (processCurrentUtterance pre)))
      with (trace (processCurrentUtterance pre)).
    rewrite processCurrentUtterance_finalizations. f_equal.
    unfold pre, writeManualStop, log. simpl.
    rewrite finalizations_app. simpl. apply app_nil_r. }
  assert (Hr1 : forall self o',
             startCalls (trace (onend self o' st1)) = startCalls (trace st1)).
  { intros self o'. rewrite onend_startCalls, Hm1.
    destruct (recognitionRef st1); apply app_nil_r. }
  assert (He3 : error st3
                = Some (lit "Cannot start listening: Microphone permission was denied."))
    by (apply startListening_deniedIdle_error; assumption).
  destruct Hd as [Hd Hl], Hd2 as [Hd2 Hl2].
  refine (conj Hd (conj Hm1 (conj Hl (conj He1 (conj Hf1 (conj Hc1 (conj Ht1
           (conj Hz1 (conj Hr1 (conj Hd2 (conj He3 (conj H31 H33)))))))))))).
Qed.

(** ** The silence timer *)
Section SilenceTimer.

Lemma advance_nothing_due (t : N) (st : State) :
  clock st <= t ->
  Forall (fun p => t < snd p) (timers st) ->
  advance t st = set_clock t st.
Proof.
  intros Hc Hd. unfold advance. rewrite N.max_r by exact Hc.
  simpl clock. simpl timers.
  assert (E : filter (fun p : TimerId * N => snd p <=? t) (timers st) = []).
  { induction Hd as [|p l Hp _ IH]; simpl; [reflexivity|].
    apply N.leb_gt in Hp. rewrite Hp. exact IH. }
  rewrite E. reflexivity.
Qed.

Lemma advance_one_due (t : N) (tid : TimerId) (deadline : N) (st : State) :
  clock st <= t -> deadline <= t ->
  timers st = [(tid, deadline)] ->
  advance t st = processCurrentUtterance (set_timers [] (set_clock t st)).
Proof.
  intros Hc Hd Ht. unfold advance. rewrite N.max_r by exact Hc.
  simpl clock. simpl timers. rewrite Ht. simpl.
  apply N.leb_le in Hd. rewrite Hd. simpl.
  unfold fireTimer, isPending. simpl. rewrite Ht. simpl.
  rewrite Pos.eqb_refl. reflexivity.
Qed.




(** Once the armed timer is due it publishes the accumulated text, if it
    does not trim to the empty string, and leaves no timer behind. *)
Lemma advance_armed_due (t t' : N) (st : State) :
  armedAt t st -> t + utteranceSilenceTimeoutMs <= t' ->
  let text := currentUtteranceRef st in
  let st' := advance t' st in
  finalizations (trace st')
  = finalizations (trace st) ++ (if truthy (trim text) then [trim text] else [])
  /\ finalizedUtterance st'
     = (if truthy (trim text) then trim text else finalizedUtterance st)
  /\ currentUtteranceRef st' = (if truthy (trim text) then [] else text)
  /\ timers st' = []
  /\ utteranceFinalizationTimeoutRef st' = None.
Proof.
  intros (Hc & tid & Hr & Ht) Hd. simpl.
  rewrite (advance_one_due t' tid (t + utteranceSilenceTimeoutMs) st);
    [| rewrite Hc; lia | exact Hd | exact Ht].
  rewrite processCurrentUtterance_finalizations,
    processCurrentUtterance_finalized, processCurrentUtterance_current,
    processCurrentUtterance_timers.
  destruct (processCurrentUtterance_frame (set_timers [] (set_clock t' st)))
    as (_ & _ & _ & _ & _ & Hn & _).
  simpl. rewrite Hr. repeat split. exact Hn.
Qed.


Lemma advance_no_timer (t : N) (st : State) :
  timers st = [] -> advance t st = set_clock (N.max (clock st) t) st.
Proof. intros H. unfold advance. simpl timers. rewrite H. reflexivity. Qed.

End SilenceTimer.


(** ** Answer streams *)
Section AnswerStreams.

Lemma applyUpdate_map (tid : jsstring) (u : StreamUpdate) (prev : list ConversationTurn) :
  applyUpdate tid u prev = map (stepTurn (tid, u)) prev.
Proof.
  unfold applyUpdate, stepTurn. simpl. destruct u as [text| |]; try reflexivity.
  destruct (truthy (orEmpty text)); [reflexivity|].
  now rewrite map_id.
Qed.

Lemma applyAll_map (us : list (jsstring * StreamUpdate)) :
  forall prev, applyAll us prev = map (stepsTurn us) prev.
Proof.
  unfold applyAll, stepsTurn.
  induction us as [|[tid u] us IH]; intros prev; simpl.
  - now rewrite map_id.
  - rewrite IH, applyUpdate_map, map_map. reflexivity.
Qed.

Lemma stepTurn_id (u : jsstring * StreamUpdate) (turn : ConversationTurn) :
  id (stepTurn u turn) = id turn /\ utterance (stepTurn u turn) = utterance turn.
Proof.
  unfold stepTurn, updateTurn. destruct u as [tid [text| |]]; simpl;
    try destruct (truthy (orEmpty text));
    destruct (strictEq (id turn) tid); simpl; auto.
Qed.

Lemma stepTurn_other (u : jsstring * StreamUpdate) (turn : ConversationTurn) :
  strictEq (id turn) (fst u) = false -> stepTurn u turn = turn.
Proof.
  intros H. unfold stepTurn, updateTurn. rewrite H.
  destruct (snd u) as [text| |]; try reflexivity.
  now destruct (truthy (orEmpty text)).
Qed.

(** Only the updates tagged with the identifier of a turn reach it. *)
Lemma stepsTurn_filter (us : list (jsstring * StreamUpdate)) :
  forall turn,
    stepsTurn us turn
    = stepsTurn (filter (fun u => strictEq (id turn) (fst u)) us) turn.
Proof.
  unfold stepsTurn.
  induction us as [|u us IH]; intros turn; simpl; [reflexivity|].
  destruct (strictEq (id turn) (fst u)) eqn:E; simpl.
  - rewrite IH. now rewrite (proj1 (stepTurn_id u turn)).
  - now rewrite (stepTurn_other u turn E).
Qed.

(** The chunks of a stream are appended in the order they are yielded. *)
Lemma stepsTurn_chunks (tid : jsstring) (texts : list (option jsstring)) :
  forall turn a,
    id turn = tid -> answer turn = Some a ->
    stepsTurn (map (fun u => (tid, u)) (map Chunk texts)) turn
    = {| id := tid; utterance := utterance turn;
         answer := Some (a ++ List.concat (map orEmpty texts));
         answerError := answerError turn;
         isProcessingAnswer := isProcessingAnswer turn |}.
Proof.
  unfold stepsTurn.
  induction texts as [|text texts IH]; intros turn a Hi Ha; simpl.
  - rewrite app_nil_r. destruct turn; simpl in *. now subst.
  - assert (Es : stepTurn (tid, Chunk text) turn
                 = if truthy (orEmpty text)
                   then {| id := id turn; utterance := utterance turn;
                           answer := Some (a ++ orEmpty text);
                           answerError := answerError turn;
                           isProcessingAnswer := isProcessingAnswer turn |}
                   else turn).
    { unfold stepTurn, updateTurn. simpl.
      now rewrite Hi, strictEq_refl, Ha. }
    rewrite Es. destruct (truthy (orEmpty text)) eqn:E.
    + rewrite (IH _ (a ++ orEmpty text)); simpl; try reflexivity; try exact Hi.
      now rewrite app_assoc.
    + apply truthy_false in E. rewrite E. simpl. now apply IH.
Qed.

(** A whole stream, seen from a turn that carries its identifier. *)
Lemma stepsTurn_stream (tid : jsstring) (s : AnswerStream) (turn : ConversationTurn)
    (a : jsstring) :
  id turn = tid -> answer turn = Some a ->
  stepsTurn (map (fun u => (tid, u)) (streamUpdates s)) turn
  = {| id := tid; utterance := utterance turn;
       answer := Some (a ++ List.concat (map orEmpty (chunks s)));
       answerError :=
         match failure s with
         | Some e => Some (errorMessage e)
         | None => answerError turn
         end;
       isProcessingAnswer := false |}.
Proof.
  intros Hi Ha. unfold streamUpdates, stepsTurn.
  rewrite !map_app, !fold_left_app.
  fold (stepsTurn (map (fun u => (tid, u)) (map Chunk (chunks s))) turn).
  rewrite (stepsTurn_chunks tid (chunks s) turn a Hi Ha).
  destruct (failure s) as [e|]; simpl; unfold stepTurn, updateTurn; simpl;
    rewrite ?strictEq_refl; simpl; rewrite ?strictEq_refl; reflexivity.
Qed.

(** The updates a filter on the tag keeps all carry that tag. *)
Lemma filter_tagged (tid : jsstring) (us : list (jsstring * StreamUpdate)) :
  filter (fun u => strictEq tid (fst u)) us
  = map (fun u => (tid, snd u)) (filter (fun u => strictEq tid (fst u)) us).
Proof.
  induction us as [|[i u] us IH]; simpl; [reflexivity|].
  destruct (strictEq tid i) eqn:Ei; simpl; [|exact IH].
  apply strictEq_eq in Ei. subst i. now rewrite <- IH.
Qed.

End AnswerStreams.

(** C8: take a turn as it is created, and any interleaving of stream
    updates in which those tagged with its identifier are the updates of
    its own stream, in order. Afterwards its answer is the concatenation of
    the yielded fragments in order, [isProcessingAnswer] is false, and
    [answerError] is null if the stream completed and the error message if
    it threw (the fragments appended before the throw are kept). In
    particular the fragments "Par" and "is" followed by completion give the
    answer "Paris". *)
Theorem stream_appends_fragments :
  (forall (conv : list ConversationTurn) (k : nat) (dateNow : N)
          (finalized : jsstring) (s : AnswerStream)
          (us : list (jsstring * StreamUpdate)),
      nth_error conv k = Some (newTurn dateNow finalized) ->
      map snd (filter (fun u => strictEq (toString dateNow) (fst u)) us)
      = streamUpdates s ->
      nth_error (applyAll us conv) k
      = Some {| id := toString dateNow; utterance := finalized;
                answer := Some (List.concat (map orEmpty (chunks s)));
                answerError :=
                  match failure s with
                  | Some e => Some (errorMessage e)
                  | None => None
                  end;
                isProcessingAnswer := false |})
  /\ processStream (toString 1718000000000)
       {| chunks := [Some (lit "Par"); Some (lit "is")]; failure := None |}
       [newTurn 1718000000000 (lit "What is the capital of France?")]
     = [{| id := toString 1718000000000;
           utterance := lit "What is the capital of France?";
           answer := Some (lit "Paris");
           answerError := None;
           isProcessingAnswer := false |}].
Proof.
  split; [|reflexivity].
  intros conv k dateNow finalized s us Hk Hus.
  rewrite applyAll_map, nth_error_map, Hk. simpl. f_equal.
  rewrite stepsTurn_filter. simpl.
  assert (E : filter (fun u => strictEq (toString dateNow) (fst u)) us
              = map (fun u => (toString dateNow, u)) (streamUpdates s)).
  { rewrite <- Hus, map_map. apply filter_tagged. }
  rewrite E.
  rewrite (stepsTurn_stream (toString dateNow) s (newTurn dateNow finalized) []);
    reflexivity.
Qed.

(** C9: an update of a stream changes only the turns whose [id] is the
    identifier the stream captured, and of those it keeps [id] and
    [utterance]; every other turn, and the number of turns, stay as they
    are. The identifier is the decimal rendering of the creation time in
    milliseconds, so two turns created in the same millisecond carry the
    same identifier, and the stream of either one then also writes its
    fragments, its error and its completion into the other. *)
Theorem stream_updates_by_identifier :
  (forall (tid : jsstring) (u : StreamUpdate) (conv : list ConversationTurn),
      length (applyUpdate tid u conv) = length conv
      /\ forall (k : nat) (turn : ConversationTurn),
          nth_error conv k = Some turn ->
          exists turn',
            nth_error (applyUpdate tid u conv) k = Some turn'
            /\ id turn' = id turn
            /\ utterance turn' = utterance turn
            /\ (id turn <> tid -> turn' = turn))
  /\ (forall (dateNow : N) (u1 u2 : jsstring),
         id (newTurn dateNow u1) = toString dateNow
         /\ id (newTurn dateNow u2) = id (newTurn dateNow u1))
  /\ (forall (dateNow : N) (u1 u2 : jsstring) (s : AnswerStream)
             (prev : list ConversationTurn),
         let written (u : jsstring) :=
           {| id := toString dateNow; utterance := u;
              answer := Some (List.concat (map orEmpty (chunks s)));
              answerError :=
                match failure s with
                | Some e => Some (errorMessage e)
                | None => None
                end;
              isProcessingAnswer := false |} in
         processStream (id (newTurn dateNow u1)) s
           (prev ++ [newTurn dateNow u1; newTurn dateNow u2])
         = processStream (id (newTurn dateNow u1)) s prev
           ++ [written u1; written u2]).
Proof.
  split; [|split].
  - intros tid u conv. rewrite applyUpdate_map. split; [apply length_map|].
    intros k turn Hk. exists (stepTurn (tid, u) turn).
    rewrite nth_error_map, Hk. simpl.
    destruct (stepTurn_id (tid, u) turn) as [Hi Hu].
    repeat split; auto.
    intros Hne. apply stepTurn_other. simpl.
    destruct (strictEq (id turn) tid) eqn:E; [|reflexivity].
    apply strictEq_eq in E. contradiction.
  - intros dateNow u1 u2. split; reflexivity.
  - intros dateNow u1 u2 s prev written. unfold processStream.
    rewrite !applyAll_map, map_app. f_equal. simpl.
    rewrite !(stepsTurn_stream (toString dateNow) s _ []); reflexivity.
Qed.

(** ** Blank utterances *)
Section BlankUtterances.

Lemma finalize_blank (e : FinalizationEvent) (st : State) :
  trim (currentUtteranceRef st) = [] ->
  finalizedUtterance (finalize e st) = finalizedUtterance st
  /\ finalizations (trace (finalize e st)) = finalizations (trace st).
Proof.
  intros H.
  destruct st as [lis itr fu err perm rref ms cur tref tms ntid nhid clk tr].
  simpl in H.
  destruct e as [tid| |service|self o]; simpl;
    unfold fireTimer, isPending, stopListening, onerror, onend,
      processCurrentUtterance, recognitionStop, recognitionStart; simpl.
  - destruct (existsb (fun p => (fst p =? tid)%positive) tms); simpl;
      rewrite ?H; simpl; destruct tref; simpl;
      rewrite ?finalizations_app; simpl; rewrite ?app_nil_r; auto.
  - destruct tref; simpl; rewrite H; simpl; destruct rref, lis; simpl;
      rewrite ?finalizations_app; simpl; rewrite ?app_nil_r; auto.
  - destruct service; simpl; rewrite H; simpl; destruct tref; simpl;
      rewrite ?finalizations_app; simpl; rewrite ?app_nil_r; auto.
  - destruct ms; simpl; rewrite ?H; simpl; destruct tref; simpl;
      destruct (isNotFalse (capturedHasPermission self)), rref; simpl;
      rewrite ?finalizations_app; simpl; rewrite ?app_nil_r; auto.
Qed.

Lemma render_in_sync (dateNow : N) (sys : System) :
  effectDeps (app sys) = Some (currentDeps sys) -> render dateNow sys = sys.
Proof.
  intros H. unfold render. rewrite H. unfold depsEqb.
  now rewrite strictEq_refl, Bool.eqb_reflx.
Qed.

(** A render adds a turn only for a truthy slot in an active session. *)
Lemma render_conversation (dateNow : N) (sys : System) :
  truthy (finalizedUtterance (hook sys)) && isSessionActive (app sys) = false ->
  conversation (app (render dateNow sys)) = conversation (app sys).
Proof.
  intros H. unfold render, finalizedUtteranceEffect.
  destruct (match effectDeps (app sys) with
            | Some old => depsEqb old (currentDeps sys)
            | None => false
            end); [reflexivity|].
  simpl. rewrite H. reflexivity.
Qed.

Lemma startListening_slot (o : StartOutcome) (st : State) :
  finalizedUtterance (startListening o st) = [].
Proof.
  unfold startListening, initializeRecognition, recognitionStart. simpl.
  destruct (recognitionRef st); simpl;
    [|destruct speechRecognitionAvailable; simpl];
    destruct (isListening st), (hasPermission st) as [[|]|], o; reflexivity.
Qed.

Lemma systemStep_ok (sys sys' : System) :
  systemStep sys sys' -> systemOk sys -> systemOk sys'.
Proof.
  intros Hs [Hh Hc]. destruct Hs; unfold systemOk; simpl.
  - split; [exact (hookStep_slotOk _ _ H Hh) | exact Hc].
  - unfold render, finalizedUtteranceEffect.
    destruct (match effectDeps (app sys) with
              | Some old => depsEqb old (currentDeps sys)
              | None => false
              end); [now split|].
    simpl.
    destruct (truthy (finalizedUtterance (hook sys))) eqn:Et; simpl;
      [|now split].
    destruct (isSessionActive (app sys)); simpl; [|now split].
    split; [now left|].
    apply Forall_app. split; [exact Hc|]. constructor; [|constructor].
    unfold utteranceOk. simpl.
    destruct Hh as [Hh|Hh]; [|exact Hh].
    rewrite Hh in Et. discriminate.
  - unfold handleToggleSession.
    destruct (apiKeyVerified (app sys)) as [[|]|]; simpl; try now split.
    destruct (hasPermission (hook sys)) as [[|]|]; simpl; try (now split);
      try destruct (truthy (orEmpty (error (hook sys)))
                    && includes (orEmpty (error (hook sys))) (lit "not supported"));
      simpl; try (now split);
      destruct (isSessionActive (app sys)); simpl;
      (split; [|exact Hc]);
      first [now apply slotOk_stopListening | apply slotOk_startListening].
  - unfold handleClearConversation. destruct confirmed; simpl; now split.
  - unfold apiKeyEffect. destruct k; simpl; now split.
  - split; [exact Hh|]. rewrite applyUpdate_map.
    apply Forall_map. eapply Forall_impl; [|exact Hc].
    intros turn [H1 H2]. unfold utteranceOk.
    destruct (stepTurn_id (newTurnId, u) turn) as [_ Hu].
    now rewrite Hu.
Qed.

Lemma systemReachable_ok (sys : System) : systemReachable sys -> systemOk sys.
Proof.
  induction 1 as [|sys sys' _ IH Hs].
  - split; [now left | constructor].
  - exact (systemStep_ok sys sys' Hs IH).
Qed.

End BlankUtterances.

(** C6: when the accumulated text trims to the empty string, a
    finalization event (timer expiry, stop, flushing error, session end)
    publishes nothing: the slot keeps its value, no utterance is added to
    those published, and the render that follows creates no turn; the same
    holds when the session is toggled. In every reachable state of the
    application the slot is empty or holds a non-empty string equal to its
    own trim, and every turn of the conversation has a non-empty, trimmed
    utterance. *)
Theorem blank_utterance_is_discarded :
  (forall (e : FinalizationEvent) (sys : System) (dateNow : N),
      trim (currentUtteranceRef (hook sys)) = [] ->
      effectDeps (app sys) = Some (currentDeps sys) ->
      let st' := finalize e (hook sys) in
      finalizedUtterance st' = finalizedUtterance (hook sys)
      /\ finalizations (trace st') = finalizations (trace (hook sys))
      /\ conversation (app (render dateNow {| hook := st'; app := app sys |}))
         = conversation (app sys))
  /\ (forall (o : StartOutcome) (sys : System) (dateNow : N),
         trim (currentUtteranceRef (hook sys)) = [] ->
         effectDeps (app sys) = Some (currentDeps sys) ->
         conversation (app (render dateNow (handleToggleSession o sys)))
         = conversation (app sys))
  /\ (forall sys : System,
         systemReachable sys ->
         (finalizedUtterance (hook sys) = []
          \/ (finalizedUtterance (hook sys) <> []
              /\ trim (finalizedUtterance (hook sys))
                 = finalizedUtterance (hook sys)))
         /\ Forall (fun turn => utterance turn <> []
                                /\ trim (utterance turn) = utterance turn)
              (conversation (app sys))).
Proof.
  split; [|split].
  - intros e sys dateNow Hb Hd st'.
    destruct (finalize_blank e (hook sys) Hb) as [Hf Hz].
    split; [exact Hf|]. split; [exact Hz|].
    rewrite render_in_sync; [reflexivity|].
    unfold currentDeps in *. simpl. rewrite Hd. unfold st'. now rewrite Hf.
  - intros o sys dateNow Hb Hd.
    unfold handleToggleSession.
    destruct (apiKeyVerified (app sys)) as [[|]|] eqn:Ek;
      try (rewrite render_in_sync; [reflexivity | exact Hd]).
    assert (Hgo :
      conversation (app (render dateNow
        (if negb (isSessionActive (app sys))
         then {| hook := startListening o (hook sys);
                 app := set_isSessionActive (negb (isSessionActive (app sys)))
                          (set_globalError None (app sys)) |}
         else {| hook := stopListening (hook sys);
                 app := set_isSessionActive (negb (isSessionActive (app sys)))
                          (app sys) |})))
      = conversation (app sys)).
    { destruct (isSessionActive (app sys)) eqn:Ea; simpl.
      - rewrite render_conversation; [reflexivity|]. simpl.
        apply andb_false_r.
      - rewrite render_conversation; [reflexivity|]. simpl.
        now rewrite startListening_slot. }
    destruct (hasPermission (hook sys)) as [[|]|]; simpl;
      try exact Hgo;
      try (rewrite render_in_sync; [reflexivity | exact Hd]).
    destruct (truthy (orEmpty (error (hook sys)))
              && includes (orEmpty (error (hook sys))) (lit "not supported"));
      [rewrite render_in_sync; [reflexivity | exact Hd] | exact Hgo].
  - intros sys Hr. exact (systemReachable_ok sys Hr).
Qed.

(** ** One silence timer *)
Section OneTimer.

Lemma ownTimerOnly_processCurrentUtterance (st : State) :
  ownTimerOnly st -> timers (processCurrentUtterance st) = [].
Proof.
  intros H. rewrite processCurrentUtterance_timers.
  destruct H as [H | (tid & d & Hr & H)].
  - rewrite H. now destruct (utteranceFinalizationTimeoutRef st).
  - rewrite Hr, H. simpl. now rewrite Pos.eqb_refl.
Qed.

Lemma ownTimerOnly_empty (st : State) : timers st = [] -> ownTimerOnly st.
Proof. now left. Qed.

Lemma ownTimerOnly_fireTimer (tid : TimerId) (st : State) :
  ownTimerOnly st -> ownTimerOnly (fireTimer tid st).
Proof.
  intros H. unfold fireTimer. destruct (isPending tid st) eqn:E; [|exact H].
  apply ownTimerOnly_empty. rewrite processCurrentUtterance_timers.
  unfold isPending in E.
  destruct st as [lis itr fu err perm rref ms cur tref tms ntid nhid clk tr].
  unfold ownTimerOnly in H. simpl in *.
  destruct H as [H | (tid' & d & Hr & H)]; subst; simpl in *.
  - discriminate.
  - rewrite orb_false_r in E. rewrite E. reflexivity.
Qed.

Lemma ownTimerOnly_fireAll (tids : list TimerId) (st : State) :
  ownTimerOnly st -> ownTimerOnly (fireAll tids st).
Proof.
  revert st. induction tids as [|tid rest IH]; intros st H; simpl; [exact H|].
  apply IH, ownTimerOnly_fireTimer, H.
Qed.

Lemma ownTimerOnly_stopListening (st : State) :
  ownTimerOnly st -> timers (stopListening st) = [].
Proof.
  intros H. unfold stopListening, recognitionStop, processCurrentUtterance.
  destruct st as [lis itr fu err perm rref ms cur tref tms ntid nhid clk tr].
  unfold ownTimerOnly in H. simpl in *.
  destruct H as [H | (tid & d & Hr & H)]; subst; simpl.
  - destruct tref; simpl; destruct (truthy (trim cur)); simpl;
      destruct rref, lis; reflexivity.
  - destruct (truthy (trim cur)); simpl; destruct rref, lis; simpl;
      rewrite ?Pos.eqb_refl; reflexivity.
Qed.

Lemma ownTimerOnly_onresult (event : SpeechRecognitionEvent) (st : State) :
  ownTimerOnly st -> ownTimerOnly (onresult event st).
Proof.
  intros H. unfold onresult.
  destruct (scanResults (newSlots event) [] []) as [interim fin].
  destruct st as [lis itr fu err perm rref ms cur tref tms ntid nhid clk tr].
  unfold ownTimerOnly in *. simpl in *.
  destruct (truthy interim), (truthy fin); simpl;
    try exact H;
    (destruct H as [H | (tid & d & Hr & H)]; subst;
     [destruct tref; simpl; right; eauto
     | simpl; rewrite Pos.eqb_refl; simpl; right; eauto]).
Qed.

Lemma hookStep_ownTimerOnly (st st' : State) :
  hookStep st st' -> ownTimerOnly st -> ownTimerOnly st'.
Proof.
  intros Hs H. destruct Hs.
  - unfold startListening, initializeRecognition, recognitionStart.
    unfold ownTimerOnly in *.
    destruct st as [lis itr fu err perm rref ms cur tref tms ntid nhid clk tr].
    simpl in *.
    destruct rref; simpl; [|destruct speechRecognitionAvailable; simpl];
      destruct lis, perm as [[|]|], o; simpl; exact H.
  - apply ownTimerOnly_empty, ownTimerOnly_stopListening, H.
  - exact H.
  - exact H.
  - apply ownTimerOnly_onresult, H.
  - unfold onerror. destruct code; try exact H;
      apply ownTimerOnly_empty;
      change (timers (processCurrentUtterance
                (writeManualStop true (set_hasPermission (Some false)
                   (set_error (Some (lit
                      "Microphone permission denied. Please enable microphone access in your browser settings.")) st)))) = []);
      apply ownTimerOnly_processCurrentUtterance; exact H.
  - unfold onend.
    set (st1 := if negb (manualStopRef (set_isListening false st))
                then processCurrentUtterance (set_isListening false st)
                else set_isListening false st).
    assert (H1 : ownTimerOnly st1).
    { unfold st1. destruct (negb (manualStopRef (set_isListening false st)));
        [|exact H].
      apply ownTimerOnly_empty, ownTimerOnly_processCurrentUtterance, H. }
    unfold recognitionStart.
    destruct (negb (manualStopRef st1) && isNotFalse (capturedHasPermission self)
              && isSome (recognitionRef st1)); [|exact H1].
    destruct (negb (manualStopRef st1)); [|exact H1].
    destruct (recognitionRef st1); exact H1.
  - unfold advance. apply ownTimerOnly_fireAll. exact H.
  - unfold initEffect, initializeRecognition.
    destruct (hasPermission st), (recognitionRef st); try exact H.
    destruct speechRecognitionAvailable; exact H.
  - unfold initEffectCleanup, recognitionStop, ownTimerOnly in *.
    destruct st as [lis itr fu err perm rref ms cur tref tms ntid nhid clk tr].
    simpl in *.
    destruct H as [H | (tid & d & Hr & H)]; subst;
      destruct rref; simpl; try destruct tref; simpl;
      rewrite ?Pos.eqb_refl; simpl; auto.
  - unfold permissionEffect.
    destruct (hasPermission st); [exact H|].
    destruct (negb speechRecognitionAvailable); exact H.
  - unfold permissionQueryResolved. destruct s; exact H.
  - unfold permissionOnChange.
    destruct (negb (isGranted s)); [|exact H].
    destruct isListening_; [|exact H].
    rewrite stopListeningOf_eq.
    apply ownTimerOnly_empty, ownTimerOnly_stopListening. exact H.
Qed.

Lemma hookReachable_ownTimerOnly (st : State) :
  hookReachable st -> ownTimerOnly st.
Proof.
  induction 1 as [|st st' _ IH Hs]; [now left|].
  exact (hookStep_ownTimerOnly st st' Hs IH).
Qed.

End OneTimer.

(** X1: in every reachable state of the hook at most one silence timer is
    pending, and when one is, it is the timer whose handle the ref holds. *)
Theorem at_most_one_silence_timer (st : State) :
  hookReachable st ->
  timers st = []
  \/ exists tid deadline,
      utteranceFinalizationTimeoutRef st = Some tid
      /\ timers st = [(tid, deadline)].
Proof. apply hookReachable_ownTimerOnly. Qed.

(** ** Batches with interim text *)
Section Speech.

Lemma processCurrentUtterance_interim (st : State) :
  interimTranscript (processCurrentUtterance st) =
  if truthy (trim (currentUtteranceRef st)) then [] else interimTranscript st.
Proof.
  unfold processCurrentUtterance.
  destruct st as [lis itr fu err perm rref ms cur tref tms ntid nhid clk tr].
  simpl. destruct (truthy (trim cur)); simpl; destruct tref; reflexivity.
Qed.

Lemma onresult_texts (event : SpeechRecognitionEvent) (st : State) :
  interimTranscript (onresult event st) = interimText (newSlots event)
  /\ currentUtteranceRef (onresult event st)
     = currentUtteranceRef st ++ finalText (newSlots event)
  /\ finalizedUtterance (onresult event st) = finalizedUtterance st
  /\ finalizations (trace (onresult event st)) = finalizations (trace st).
Proof.
  unfold onresult. rewrite scanResults_spec. simpl.
  destruct (truthy (finalText (newSlots event))) eqn:Ef;
    destruct (truthy (interimText (newSlots event))) eqn:Ei; simpl;
    try (apply truthy_false in Ef; rewrite Ef, app_nil_r);
    destruct (utteranceFinalizationTimeoutRef st); simpl;
    rewrite ?finalizations_app; simpl; rewrite ?app_nil_r; auto.
Qed.

Lemma onresult_speech (timeoutInRange : utteranceSilenceTimeoutMs < 2147483648)
    (event : SpeechRecognitionEvent) (st : State) :
  truthy (interimText (newSlots event)) || truthy (finalText (newSlots event))
  = true ->
  ownTimerOnly st ->
  armedAt (clock st) (onresult event st).
Proof.
  intros Hs Ht. unfold onresult, setTimeout.
  rewrite (timerDelay_small _ timeoutInRange).
  rewrite scanResults_spec. simpl.
  rewrite Hs. unfold armedAt.
  destruct st as [lis itr fu err perm rref ms cur tref tms ntid nhid clk tr].
  unfold ownTimerOnly in Ht. simpl in *.
  destruct (truthy (finalText (newSlots event))); simpl;
    (destruct Ht as [Ht | (tid & d & Hr & Ht)]; subst;
     [destruct tref; simpl; eauto
     | simpl; rewrite ?Pos.eqb_refl; simpl; eauto]).
Qed.

Lemma deliver_speech (timeoutInRange : utteranceSilenceTimeoutMs < 2147483648)
    (p : N * SpeechRecognitionEvent) (st : State) :
  speech p ->
  clock st <= fst p ->
  timers st = []
  \/ (armedAt (clock st) st /\ fst p < clock st + utteranceSilenceTimeoutMs) ->
  let st' := deliver p st in
  armedAt (fst p) st'
  /\ currentUtteranceRef st' = currentUtteranceRef st ++ finalText (newSlots (snd p))
  /\ interimTranscript st' = interimText (newSlots (snd p))
  /\ finalizedUtterance st' = finalizedUtterance st
  /\ finalizations (trace st') = finalizations (trace st).
Proof.
  intros Hs Hc Ht. unfold deliver.
  assert (Ea : advance (fst p) st = set_clock (fst p) st).
  { apply advance_nothing_due; [exact Hc|].
    destruct Ht as [Ht | [(_ & tid & _ & Ht) Hlt]]; rewrite Ht;
      [constructor | repeat constructor; exact Hlt]. }
  rewrite Ea.
  assert (Ht' : ownTimerOnly (set_clock (fst p) st)).
  { destruct Ht as [Ht | [(_ & tid & Hr & Ht) Hlt]]; [left; exact Ht|].
    right. exists tid, (clock st + utteranceSilenceTimeoutMs). now split. }
  destruct (onresult_texts (snd p) (set_clock (fst p) st)) as (Hi & Hu & Hf & Hz).
  split; [exact (onresult_speech timeoutInRange (snd p)
                   (set_clock (fst p) st) Hs Ht')|].
  split; [exact Hu|]. split; [exact Hi|]. split; [exact Hf | exact Hz].
Qed.

Lemma deliverAll_speech (timeoutInRange : utteranceSilenceTimeoutMs < 2147483648)
    (rest : list (N * SpeechRecognitionEvent)) :
  forall (st : State),
    armedAt (clock st) st ->
    closelySpaced (clock st) rest ->
    Forall speech rest ->
    let st' := deliverAll rest st in
    armedAt (lastArrival (clock st) rest) st'
    /\ currentUtteranceRef st' = currentUtteranceRef st ++ allFragments rest
    /\ interimTranscript st' = lastInterim (interimTranscript st) rest
    /\ finalizedUtterance st' = finalizedUtterance st
    /\ finalizations (trace st') = finalizations (trace st).
Proof.
  induction rest as [|p rest IH]; intros st Ha Hs Hf; simpl.
  - unfold allFragments. simpl. rewrite app_nil_r. auto.
  - destruct Hs as (Hle & Hlt & Hs). inversion Hf as [|? ? Hp Hf']; subst.
    destruct (deliver_speech timeoutInRange p st Hp Hle
                (or_intror (conj Ha Hlt)))
      as (Ha1 & Hc1 & Hi1 & Hu1 & Hz1).
    cbv zeta in Ha1, Hc1, Hi1, Hu1, Hz1.
    assert (Hk : clock (deliver p st) = fst p) by exact (proj1 Ha1).
    rewrite <- Hk in Ha1, Hs.
    destruct (IH (deliver p st) Ha1 Hs Hf') as (Ha2 & Hc2 & Hi2 & Hu2 & Hz2).
    cbv zeta in Ha2, Hc2, Hi2, Hu2, Hz2. rewrite Hk in Ha2.
    unfold deliverAll in *. simpl.
    split; [exact Ha2|]. split; [|split; [|split; congruence]].
    + rewrite Hc2, Hc1. unfold allFragments. simpl. now rewrite app_assoc.
    + now rewrite Hi2, Hi1.
Qed.

(** Speech, then silence: the state after the timer has fired. *)
Lemma speech_silence (timeoutInRange : utteranceSilenceTimeoutMs < 2147483648)
    (st : State) (first : N * SpeechRecognitionEvent)
    (rest : list (N * SpeechRecognitionEvent)) (t : N) :
  timers st = [] ->
  clock st <= fst first ->
  closelySpaced (fst first) rest ->
  Forall speech (first :: rest) ->
  lastArrival (fst first) rest + utteranceSilenceTimeoutMs <= t ->
  let text := currentUtteranceRef st ++ allFragments (first :: rest) in
  let listening := deliverAll (first :: rest) st in
  let silent := advance t listening in
  finalizations (trace listening) = finalizations (trace st)
  /\ interimTranscript listening
     = lastInterim (interimTranscript st) (first :: rest)
  /\ finalizations (trace silent)
     = finalizations (trace st)
       ++ (if truthy (trim text) then [trim text] else [])
  /\ finalizedUtterance silent
     = (if truthy (trim text) then trim text else finalizedUtterance st)
  /\ currentUtteranceRef silent = (if truthy (trim text) then [] else text)
  /\ interimTranscript silent
     = (if truthy (trim text) then []
        else lastInterim (interimTranscript st) (first :: rest))
  /\ timers silent = [].
Proof.
  intros Ht Hc Hs Hf Hd text listening silent.
  inversion Hf as [|? ? Hp Hf']; subst.
  destruct (deliver_speech timeoutInRange first st Hp Hc (or_introl Ht))
    as (Ha1 & Hc1 & Hi1 & Hu1 & Hz1).
  cbv zeta in Ha1, Hc1, Hi1, Hu1, Hz1.
  assert (Hk : clock (deliver first st) = fst first) by exact (proj1 Ha1).
  rewrite <- Hk in Ha1, Hs.
  destruct (deliverAll_speech timeoutInRange rest (deliver first st)
              Ha1 Hs Hf')
    as (Ha2 & Hc2 & Hi2 & Hu2 & Hz2).
  cbv zeta in Ha2, Hc2, Hi2, Hu2, Hz2. rewrite Hk in Ha2.
  assert (El : listening = deliverAll rest (deliver first st)) by reflexivity.
  assert (Hz : finalizations (trace listening) = finalizations (trace st))
    by (rewrite El; congruence).
  assert (Hx : currentUtteranceRef listening = text).
  { rewrite El, Hc2, Hc1. unfold text, allFragments. simpl.
    now rewrite app_assoc. }
  assert (Hu : finalizedUtterance listening = finalizedUtterance st)
    by (rewrite El; congruence).
  assert (Hi : interimTranscript listening
               = lastInterim (interimTranscript st) (first :: rest))
    by (rewrite El, Hi2, Hi1; reflexivity).
  rewrite <- El in Ha2.
  destruct (advance_armed_due _ t listening Ha2 Hd) as (H1 & H2 & H3 & H4 & _).
  cbv zeta in H1, H2, H3, H4.
  rewrite Hx, Hz in H1. rewrite Hx, Hu in H2. rewrite Hx in H3.
  split; [exact Hz|]. split; [exact Hi|]. split; [exact H1|].
  split; [exact H2|]. split; [exact H3|]. split; [|exact H4].
  destruct Ha2 as (Hck & tid & Hr & Htm).
  unfold silent.
  rewrite (advance_one_due t tid
             (lastArrival (fst first) rest + utteranceSilenceTimeoutMs)
             listening);
    [| rewrite Hck; lia | exact Hd | exact Htm].
  rewrite processCurrentUtterance_interim. simpl. now rewrite Hx, Hi.
Qed.

End Speech.

(** X2: the loop of [onresult] reads only the slots from [resultIndex]
    on: the interim transcript becomes the concatenation, in order, of the
    transcripts of the new slots that are not final (replacing what was
    shown), the transcripts of the new final slots are appended, in order,
    to the accumulated text, and the finalized slot is left alone. A batch
    whose [resultIndex] is at or beyond the number of results only empties
    the interim transcript. *)
Theorem onresult_reads_new_slots (event : SpeechRecognitionEvent) (st : State) :
  let slots := skipn (resultIndex event) (results event) in
  interimTranscript (onresult event st)
  = List.concat (map transcript (filter (fun r => negb (isFinal r)) slots))
  /\ currentUtteranceRef (onresult event st)
     = currentUtteranceRef st
       ++ List.concat (map transcript (filter isFinal slots))
  /\ finalizedUtterance (onresult event st) = finalizedUtterance st
  /\ onresult event st
     = onresult {| resultIndex := 0; results := slots |} st
  /\ ((length (results event) <= resultIndex event)%nat ->
      onresult event st = set_interimTranscript [] st).
Proof.
  destruct (onresult_texts event st) as (Hi & Hc & Hf & _).
  split; [exact Hi|]. split; [exact Hc|]. split; [exact Hf|]. split.
  - reflexivity.
  - intros Hl. unfold onresult, newSlots.
    rewrite skipn_all2 by exact Hl. reflexivity.
Qed.

(** X3: let the silence timeout be below 2^31 ms, the range
    [window.setTimeout] honours. Take batches that each carry some text,
    interim or final, the
    first arriving when no timer is pending and each later one less than
    the silence timeout after the one before. Nothing is published while
    they arrive. Once the timeout has elapsed after the last batch, the
    trimmed final text accumulated is published and the interim transcript
    emptied, if that text is not blank; if it is blank (interim results
    only, say) nothing is published and the interim transcript of the last
    batch stays on display. Either way no timer is left. *)
Theorem speech_then_silence (st : State) (first : N * SpeechRecognitionEvent)
    (rest : list (N * SpeechRecognitionEvent)) (t : N) :
  utteranceSilenceTimeoutMs < 2147483648 ->
  timers st = [] ->
  clock st <= fst first ->
  closelySpaced (fst first) rest ->
  Forall speech (first :: rest) ->
  lastArrival (fst first) rest + utteranceSilenceTimeoutMs <= t ->
  let text := currentUtteranceRef st ++ allFragments (first :: rest) in
  let shown := lastInterim (interimTranscript st) (first :: rest) in
  let listening := deliverAll (first :: rest) st in
  let silent := advance t listening in
  finalizations (trace listening) = finalizations (trace st)
  /\ interimTranscript listening = shown
  /\ finalizations (trace silent)
     = finalizations (trace st)
       ++ (if truthy (trim text) then [trim text] else [])
  /\ finalizedUtterance silent
     = (if truthy (trim text) then trim text else finalizedUtterance st)
  /\ interimTranscript silent = (if truthy (trim text) then [] else shown)
  /\ timers silent = [].
Proof.
  intros Hrange Ht Hc Hs Hf Hd text shown listening silent.
  destruct (speech_silence Hrange st first rest t Ht Hc Hs Hf Hd)
    as (H1 & H2 & H3 & H4 & _ & H6 & H7).
  exact (conj H1 (conj H2 (conj H3 (conj H4 (conj H6 H7))))).
Qed.

(** ** The session life cycle *)
Section LifeCycle.

Lemma noHandleCalls_app (a b : list Action) :
  noHandleCalls (a ++ b) = noHandleCalls a && noHandleCalls b.
Proof.
  induction a as [|x a IH]; simpl; [reflexivity|]. destruct x; auto.
Qed.

Lemma onend_manual (self : Recognition) (o : StartOutcome) (st : State) :
  manualStopRef st = true -> onend self o st = set_isListening false st.
Proof. intros H. unfold onend. simpl. rewrite H. simpl. rewrite H. reflexivity. Qed.

Lemma stopListening_finalizations (st : State) :
  finalizations (trace (stopListening st))
  = finalizations (trace st)
    ++ (if truthy (trim (currentUtteranceRef st))
        then [trim (currentUtteranceRef st)] else []).
Proof.
  unfold stopListening, processCurrentUtterance, recognitionStop.
  destruct st as [lis itr fu err perm rref ms cur tref tms ntid nhid clk tr].
  simpl. destruct tref; simpl; destruct (truthy (trim cur)) eqn:E; simpl;
    destruct rref, lis; simpl; rewrite ?finalizations_app; simpl;
    rewrite ?E, ?app_nil_r; reflexivity.
Qed.

Lemma stopListening_current (st : State) :
  trim (currentUtteranceRef (stopListening st)) = []
  \/ (truthy (trim (currentUtteranceRef st)) = false
      /\ currentUtteranceRef (stopListening st) = currentUtteranceRef st).
Proof.
  unfold stopListening, processCurrentUtterance, recognitionStop.
  destruct st as [lis itr fu err perm rref ms cur tref tms ntid nhid clk tr].
  simpl. destruct tref; simpl; destruct (truthy (trim cur)) eqn:E; simpl;
    destruct rref, lis; simpl; auto.
Qed.

(** The cells [stopListening] keeps, and the two it always sets. *)
Lemma stopListening_frame (st : State) :
  hasPermission (stopListening st) = hasPermission st
  /\ error (stopListening st) = error st
  /\ manualStopRef (stopListening st) = true
  /\ isListening (stopListening st) = false
  /\ startCalls (trace (stopListening st)) = startCalls (trace st).
Proof.
  unfold stopListening, processCurrentUtterance, recognitionStop.
  destruct st as [lis itr fu err perm rref ms cur tref tms ntid nhid clk tr].
  simpl. destruct tref; simpl; destruct (truthy (trim cur)); simpl;
    destruct rref, lis; simpl; rewrite ?startCalls_app; simpl;
    rewrite ?app_nil_r; repeat split; reflexivity.
Qed.

End LifeCycle.

(** X4: a session end that follows a manual stop only marks the hook as
    not listening. An unsolicited one (manual-stop flag clear) also
    flushes: the trimmed accumulated text, if not empty, is published and
    the accumulated text emptied, and the timer ref is cleared. *)
Theorem onend_flushes_unless_manual
    (self : Recognition) (o : StartOutcome) (st : State) :
  (manualStopRef st = true -> onend self o st = set_isListening false st)
  /\ (manualStopRef st = false ->
      let pending := currentUtteranceRef st in
      let st' := onend self o st in
      isListening st' = false
      /\ finalizedUtterance st'
         = (if truthy (trim pending) then trim pending else finalizedUtterance st)
      /\ currentUtteranceRef st' = (if truthy (trim pending) then [] else pending)
      /\ utteranceFinalizationTimeoutRef st' = None
      /\ finalizations (trace st')
         = finalizations (trace st)
           ++ (if truthy (trim pending) then [trim pending] else [])).
Proof.
  split; [apply onend_manual|].
  intros Hm. unfold onend, processCurrentUtterance, recognitionStart.
  destruct st as [lis itr fu err perm rref ms cur tref tms ntid nhid clk tr].
  simpl in *. subst ms. simpl.
  destruct (truthy (trim cur)) eqn:E; simpl; destruct tref; simpl;
    destruct (isNotFalse (capturedHasPermission self)); simpl;
    destruct rref; simpl; rewrite ?finalizations_app; simpl;
    rewrite ?E, ?app_nil_r; repeat split; reflexivity.
Qed.

(** X5: an error other than the two permission codes leaves permission,
    manual-stop flag, accumulated text, finalized slot, timers and log as
    they were: it only marks the hook as not listening and sets the error
    (none for [no-speech], the code in a message otherwise). The session
    end that follows therefore still restarts the session once. *)
Theorem other_errors_keep_the_session
    (code : SpeechRecognitionErrorCode) (self : Recognition)
    (o : StartOutcome) (st : State) :
  code <> not_allowed -> code <> service_not_allowed ->
  let st1 := onerror code st in
  st1 = set_isListening false
          (set_error
             (match code with
              | no_speech => None
              | _ => Some (lit "Speech recognition error: " ++ errorCodeName code)
              end) st)
  /\ (manualStopRef st = false ->
      capturedHasPermission self <> Some false ->
      recognitionRef st = Some self ->
      startCalls (trace (onend self o st1))
      = startCalls (trace st) ++ [handleId self]).
Proof.
  intros H1 H2 st1.
  assert (E : st1 = set_isListening false
                (set_error
                   (match code with
                    | no_speech => None
                    | _ => Some (lit "Speech recognition error: "
                                 ++ errorCodeName code)
                    end) st)).
  { unfold st1, onerror. destruct code; try reflexivity; contradiction. }
  split; [exact E|].
  intros Hm Hp Hr. rewrite onend_startCalls, E. simpl. rewrite Hr, Hm. simpl.
  destruct (capturedHasPermission self) as [[|]|]; simpl; try reflexivity.
  now contradiction Hp.
Qed.

(** X6: what [startListening] does with the handle. The instance is the
    one at hand, or a fresh one if there is none and recognition is
    available. [start()] is invoked exactly once when there is an instance,
    the hook is not listening and permission is not denied, and not at all
    otherwise; [isListening] is not touched (the session-start callback
    sets it). The error becomes "could not be initialized" without an
    instance, the permission error when denied, "Failed to start" when
    [start()] throws anything but an invalid-state error, and is left as
    it was otherwise. *)
Theorem startListening_start_and_errors (o : StartOutcome) (st : State) :
  let st' := startListening o st in
  let instance :=
    match recognitionRef st with
    | Some current => Some current
    | None =>
        if speechRecognitionAvailable
        then Some {| handleId := nextHandleId st;
                     capturedHasPermission := hasPermission st |}
        else None
    end in
  recognitionRef st' = instance
  /\ isListening st' = isListening st
  /\ startCalls (trace st')
     = startCalls (trace st)
       ++ match instance with
          | Some current =>
              if negb (isListening st) && isNotFalse (hasPermission st)
              then [handleId current] else []
          | None => []
          end
  /\ error st'
     = match instance with
       | None => Some (lit "Speech recognition could not be initialized.")
       | Some _ =>
           if isListening st then error st
           else if negb (isNotFalse (hasPermission st))
           then Some (lit "Cannot start listening: Microphone permission was denied.")
           else match o with
                | OtherStartError =>
                    Some (lit "Failed to start speech recognition.")
                | _ => error st
                end
       end.
Proof.
  unfold startListening, initializeRecognition, recognitionStart.
  destruct st as [lis itr fu err perm rref ms cur tref tms ntid nhid clk tr].
  simpl.
  destruct rref as [h|]; simpl;
    [|destruct speechRecognitionAvailable; simpl];
    destruct lis; simpl; try destruct perm as [[|]|]; simpl;
    try destruct o; simpl;
    rewrite ?startCalls_app; simpl; rewrite ?app_nil_r;
    repeat split; reflexivity.
Qed.

(** X7: where the browser has no speech recognition, the hook never gets
    an instance, never listens, never calls [start()] or [stop()], arms no
    timer and publishes nothing, whatever is done to it; and
    [startListening] reports that recognition could not be initialized
    and records the permission as denied. *)
Theorem unsupported_browser_never_listens (st : State) (o : StartOutcome) :
  speechRecognitionAvailable = false ->
  hookReachable st ->
  (recognitionRef st = None
   /\ isListening st = false
   /\ noHandleCalls (trace st) = true
   /\ timers st = []
   /\ finalizedUtterance st = [])
  /\ error (startListening o st)
     = Some (lit "Speech recognition could not be initialized.")
  /\ hasPermission (startListening o st) = Some false.
Proof.
  intros Ha Hr.
  assert (Hinv : recognitionRef st = None /\ isListening st = false
                 /\ noHandleCalls (trace st) = true /\ timers st = []
                 /\ finalizedUtterance st = []
                 /\ currentUtteranceRef st = []).
  { induction Hr as [|st st' _ IH Hs]; [repeat split|].
    destruct IH as (I1 & I2 & I3 & I4 & I5 & I6).
    destruct Hs;
      try (rewrite I1 in H; discriminate H);
      unfold startListening, stopListening, clearFinalizedUtterance,
        advance, initEffect, initEffectCleanup, permissionEffect,
        permissionQueryResolved, permissionOnChange, stopListeningOf,
        initializeRecognition, processCurrentUtterance, recognitionStop,
        recognitionStart;
      rewrite ?Ha;
      destruct st as [lis itr fu err perm rref ms cur tref tms ntid nhid clk tr];
      simpl in *; subst; simpl;
      try destruct tref; try destruct perm as [[|]|]; try destruct s;
      try destruct isListening_;
      simpl; rewrite ?noHandleCalls_app, ?I3; simpl; repeat split;
      try reflexivity; try assumption. }
  destruct Hinv as (I1 & I2 & I3 & I4 & I5 & _).
  split; [repeat split; assumption|].
  unfold startListening, initializeRecognition. simpl.
  rewrite I1, Ha. simpl. split; reflexivity.
Qed.

(** X8: a permission state other than [granted] -- [denied], but also
    [prompt], the state of a permission not yet asked for -- is recorded
    as denied when the permission query resolves; [prompt] sets no error
    message. [startListening] then never invokes [start()], and when the
    hook is idle with an instance at hand or obtainable it reports that
    permission was denied. *)
Theorem undecided_permission_counts_as_denied
    (s : PermissionState) (o : StartOutcome) (st : State) :
  s <> granted ->
  let st1 := permissionQueryResolved s st in
  hasPermission st1 = Some false
  /\ (s = prompt -> error st1 = error st)
  /\ startCalls (trace (startListening o st1)) = startCalls (trace st)
  /\ (isListening st = false ->
      speechRecognitionAvailable = true \/ recognitionRef st <> None ->
      error (startListening o st1)
      = Some (lit "Cannot start listening: Microphone permission was denied.")).
Proof.
  intros Hs st1.
  assert (Hp : hasPermission st1 = Some false)
    by (unfold st1, permissionQueryResolved; destruct s;
        [contradiction | reflexivity | reflexivity]).
  split; [exact Hp|]. split.
  { intros ->. reflexivity. }
  destruct (startListening_denied o st1 Hp) as (_ & _ & Hc).
  split.
  - rewrite Hc. unfold st1, permissionQueryResolved. now destruct s.
  - intros Hl Hav. unfold startListening, initializeRecognition.
    simpl. rewrite Hp.
    assert (El : isListening st1 = false)
      by (unfold st1, permissionQueryResolved; now destruct s).
    assert (Er : recognitionRef st1 = recognitionRef st)
      by (unfold st1, permissionQueryResolved; now destruct s).
    rewrite El, Er.
    destruct (recognitionRef st) eqn:E; simpl; [reflexivity|].
    destruct Hav as [Hav|Hav]; [|now contradiction Hav].
    rewrite Hav. reflexivity.
Qed.

(** X9: [permissionStatus.onchange] acts on the [isListening] its handler
    closed over when the permission query was issued, not on the current
    one. A change to [granted] records the permission and clears the
    error. A change to anything else records the permission as denied with
    the message; when the closed-over value is false -- the query was
    issued by a render in which the hook was not listening, as at mount --
    nothing else happens, even if the hook is listening by now: it stays
    listening, nothing is flushed and [stop()] is not called. When the
    closed-over value is true the handler performs a manual stop: the
    manual-stop flag is set, the pending text is flushed, the hook stops
    listening, and the session end that follows restarts nothing. *)
Theorem permission_change_uses_captured_listening
    (isListening_ : bool) (s : PermissionState) (self : Recognition)
    (o : StartOutcome) (st : State) :
  (s = granted ->
   permissionOnChange isListening_ s st
   = set_error None (set_hasPermission (Some true) st))
  /\ (s <> granted -> isListening_ = false ->
      permissionOnChange isListening_ s st
      = set_error (Some permissionDeniedMessage)
          (set_hasPermission (Some false) st))
  /\ (s <> granted -> isListening_ = true ->
      let pending := currentUtteranceRef st in
      let st' := permissionOnChange isListening_ s st in
      hasPermission st' = Some false
      /\ error st' = Some permissionDeniedMessage
      /\ manualStopRef st' = true
      /\ isListening st' = false
      /\ finalizations (trace st')
         = finalizations (trace st)
           ++ (if truthy (trim pending) then [trim pending] else [])
      /\ startCalls (trace (onend self o st')) = startCalls (trace st)).
Proof.
  split; [intros ->; reflexivity|]. split.
  - intros Hs ->. unfold permissionOnChange.
    destruct s; [contradiction| |]; reflexivity.
  - intros Hs -> pending st'.
    assert (E : st' = stopListening
                        (set_isListening true
                           (set_error (Some permissionDeniedMessage)
                              (set_hasPermission (Some false) st)))).
    { unfold st', permissionOnChange.
      destruct s; [contradiction| |]; simpl; apply stopListeningOf_eq. }
    rewrite E.
    destruct (stopListening_frame
                (set_isListening true
                   (set_error (Some permissionDeniedMessage)
                      (set_hasPermission (Some false) st))))
      as (H1 & H2 & H3 & H4 & H5).
    split; [exact H1|]. split; [exact H2|]. split; [exact H3|].
    split; [exact H4|]. split.
    + now rewrite stopListening_finalizations.
    + rewrite onend_startCalls, H3, H5.
      destruct (recognitionRef (stopListening _)); apply app_nil_r.
Qed.

(** X10: in every reachable state of the hook [stopListening] publishes
    the pending text at most once: what it publishes is the trimmed
    accumulated text if that is not empty; no timer is left, so the
    silence that follows publishes nothing more, and neither does a second
    [stopListening]. *)
Theorem stop_publishes_once (st : State) (t : N) :
  hookReachable st ->
  let pending := currentUtteranceRef st in
  let stopped := stopListening st in
  finalizations (trace stopped)
  = finalizations (trace st)
    ++ (if truthy (trim pending) then [trim pending] else [])
  /\ timers stopped = []
  /\ finalizations (trace (advance t stopped)) = finalizations (trace stopped)
  /\ finalizations (trace (stopListening stopped))
     = finalizations (trace stopped).
Proof.
  intros Hr pending stopped.
  assert (Ht : timers stopped = [])
    by (apply ownTimerOnly_stopListening, hookReachable_ownTimerOnly, Hr).
  split; [apply stopListening_finalizations|]. split; [exact Ht|]. split.
  - now rewrite (advance_no_timer t stopped Ht).
  - rewrite stopListening_finalizations.
    destruct (stopListening_current st) as [E | [E1 E2]].
    + fold stopped in E. rewrite E. simpl. apply app_nil_r.
    + fold stopped in E2. rewrite E2, E1. apply app_nil_r.
Qed.

(** ** The session toggle and the conversation *)
Section Orchestration.

Lemma handleToggleSession_refused (o : StartOutcome) (sys : System) :
  toggleRefused sys = true ->
  exists message,
    handleToggleSession o sys
    = {| hook := hook sys; app := set_globalError (Some message) (app sys) |}.
Proof.
  unfold toggleRefused, handleToggleSession, notSupported. intros H.
  destruct (apiKeyVerified (app sys)) as [[|]|];
    [|eexists; reflexivity|eexists; reflexivity].
  destruct (hasPermission (hook sys)) as [[|]|]; simpl in *;
    [discriminate | eexists; reflexivity |].
  rewrite H. eexists; reflexivity.
Qed.

Lemma handleToggleSession_accepted (o : StartOutcome) (sys : System) :
  toggleRefused sys = false ->
  handleToggleSession o sys
  = if isSessionActive (app sys)
    then {| hook := stopListening (hook sys);
            app := set_isSessionActive false (app sys) |}
    else {| hook := startListening o (hook sys);
            app := set_isSessionActive true (set_globalError None (app sys)) |}.
Proof.
  unfold toggleRefused, handleToggleSession, notSupported.
  destruct (apiKeyVerified (app sys)) as [[|]|]; try discriminate.
  destruct (hasPermission (hook sys)) as [[|]|]; simpl; try discriminate.
  - intros _. destruct (isSessionActive (app sys)); reflexivity.
  - intros H. rewrite H. destruct (isSessionActive (app sys)); reflexivity.
Qed.

Lemma render_cases (dateNow : N) (sys : System) :
  (conversation (app (render dateNow sys)) = conversation (app sys)
   /\ (finalizedUtterance (hook (render dateNow sys))
       = finalizedUtterance (hook sys)))
  \/ (truthy (finalizedUtterance (hook sys)) = true
      /\ isSessionActive (app sys) = true
      /\ conversation (app (render dateNow sys))
         = conversation (app sys)
           ++ [newTurn dateNow (finalizedUtterance (hook sys))]
      /\ finalizedUtterance (hook (render dateNow sys)) = []).
Proof.
  unfold render, finalizedUtteranceEffect.
  destruct (match effectDeps (app sys) with
            | Some old => depsEqb old (currentDeps sys)
            | None => false
            end); [now left|].
  simpl.
  destruct (truthy (finalizedUtterance (hook sys))) eqn:Et; simpl;
    [|now left].
  destruct (isSessionActive (app sys)) eqn:Ea; simpl; [|now left].
  right. auto.
Qed.

(** After a render the effect has seen the slot: rendering again adds
    nothing. *)
Lemma render_twice (d d' : N) (sys : System) :
  conversation (app (render d' (render d sys)))
  = conversation (app (render d sys)).
Proof.
  destruct (match effectDeps (app sys) with
            | Some old => depsEqb old (currentDeps sys)
            | None => false
            end) eqn:Ed.
  - assert (E : render d sys = sys) by (unfold render; now rewrite Ed).
    rewrite E. unfold render. now rewrite Ed.
  - assert (E : render d sys
                = finalizedUtteranceEffect d
                    {| hook := hook sys;
                       app := set_effectDeps (Some (currentDeps sys)) (app sys) |})
      by (unfold render; now rewrite Ed).
    rewrite E. unfold finalizedUtteranceEffect. simpl.
    destruct (truthy (finalizedUtterance (hook sys))
              && isSessionActive (app sys)) eqn:Eg.
    + apply render_conversation. reflexivity.
    + rewrite render_in_sync; reflexivity.
Qed.

End Orchestration.

(** X11: [handleToggleSession] changes nothing but the global error when
    the API key is not verified, when permission is denied, or when
    permission is unknown and the hook reports that recognition is not
    supported: the hook, the conversation and the session flag stay as
    they are, also when a session is active (which the toggle then does
    not stop). In every other case the session flag flips, a session that
    was active is stopped with [stopListening], and one that was not is
    started with [startListening] after the global error is cleared. *)
Theorem toggle_guards (o : StartOutcome) (sys : System) :
  let refused :=
    match apiKeyVerified (app sys) with
    | Some true =>
        match hasPermission (hook sys) with
        | Some false => true
        | Some true => false
        | None =>
            truthy (orEmpty (error (hook sys)))
            && includes (orEmpty (error (hook sys))) (lit "not supported")
        end
    | _ => true
    end in
  let sys' := handleToggleSession o sys in
  (refused = true ->
   hook sys' = hook sys
   /\ isSessionActive (app sys') = isSessionActive (app sys)
   /\ conversation (app sys') = conversation (app sys)
   /\ globalError (app sys') <> None)
  /\ (refused = false ->
      isSessionActive (app sys') = negb (isSessionActive (app sys))
      /\ conversation (app sys') = conversation (app sys)
      /\ hook sys'
         = (if isSessionActive (app sys)
            then stopListening (hook sys)
            else startListening o (hook sys))
      /\ (isSessionActive (app sys) = false -> globalError (app sys') = None)).
Proof.
  intros refused sys'. split; intros H.
  - destruct (handleToggleSession_refused o sys H) as [message E].
    unfold sys'. rewrite E. simpl. repeat split. discriminate.
  - unfold sys'. rewrite (handleToggleSession_accepted o sys H).
    destruct (isSessionActive (app sys)); simpl; repeat split; discriminate.
Qed.

(** X12: text still pending when an active session is stopped through
    the toggle is published to the slot but becomes no turn, because the
    session is no longer active when the effect sees it; and starting the
    session again empties the slot, so the text is lost. *)
Theorem stop_toggle_drops_pending_text
    (o o' : StartOutcome) (d d' : N) (sys : System) :
  isSessionActive (app sys) = true ->
  apiKeyVerified (app sys) = Some true ->
  hasPermission (hook sys) <> Some false ->
  (hasPermission (hook sys) = None ->
   notSupported (error (hook sys)) = false) ->
  trim (currentUtteranceRef (hook sys)) <> [] ->
  let stopped := render d (handleToggleSession o sys) in
  let restarted := render d' (handleToggleSession o' stopped) in
  finalizedUtterance (hook stopped) = trim (currentUtteranceRef (hook sys))
  /\ isSessionActive (app stopped) = false
  /\ conversation (app stopped) = conversation (app sys)
  /\ finalizedUtterance (hook restarted) = []
  /\ isSessionActive (app restarted) = true
  /\ conversation (app restarted) = conversation (app sys).
Proof.
  intros Ha Hk Hp Hns Ht stopped restarted.
  assert (Hr : toggleRefused sys = false).
  { unfold toggleRefused. rewrite Hk.
    destruct (hasPermission (hook sys)) as [[|]|];
      [reflexivity | now contradiction Hp | now apply Hns]. }
  pose proof (handleToggleSession_accepted o sys Hr) as E. rewrite Ha in E.
  assert (Hf : finalizedUtterance (stopListening (hook sys))
               = trim (currentUtteranceRef (hook sys))).
  { apply truthy_nonempty in Ht.
    unfold stopListening, processCurrentUtterance, recognitionStop.
    destruct (hook sys)
      as [lis itr fu err perm rref ms cur tref tms ntid nhid clk tr].
    simpl in *. destruct tref; simpl; rewrite Ht; simpl;
      destruct rref, lis; reflexivity. }
  assert (Es : hook stopped = stopListening (hook sys)
               /\ isSessionActive (app stopped) = false
               /\ apiKeyVerified (app stopped) = Some true
               /\ conversation (app stopped) = conversation (app sys)).
  { unfold stopped. rewrite E. unfold render, finalizedUtteranceEffect.
    simpl.
    destruct (match effectDeps (app sys) with
              | Some old =>
                  depsEqb old
                    (currentDeps
                       {| hook := stopListening (hook sys);
                          app := set_isSessionActive false (app sys) |})
              | None => false
              end); simpl; rewrite ?andb_false_r; simpl; auto. }
  destruct Es as (Es & Hsa & Hsk & Hsc).
  assert (Hr' : toggleRefused stopped = false).
  { unfold toggleRefused. rewrite Hsk, Es.
    destruct (stopListening_frame (hook sys)) as (H1 & H2 & _).
    rewrite H1, H2. unfold toggleRefused in Hr. now rewrite Hk in Hr. }
  pose proof (handleToggleSession_accepted o' stopped Hr') as E'.
  rewrite Hsa in E'.
  assert (Hg : truthy (finalizedUtterance
                         (hook (handleToggleSession o' stopped)))
               && isSessionActive (app (handleToggleSession o' stopped))
               = false).
  { rewrite E'. simpl. now rewrite startListening_slot. }
  split; [rewrite Es; exact Hf|]. split; [exact Hsa|]. split; [exact Hsc|].
  unfold restarted.
  destruct (render_cases d' (handleToggleSession o' stopped))
    as [[Hc Hu] | (Hx & Hy & _)].
  - rewrite Hc, Hu, E'. simpl. rewrite startListening_slot.
    split; [reflexivity|]. split; [|exact Hsc].
    unfold render, finalizedUtteranceEffect. simpl.
    rewrite startListening_slot. simpl.
    now destruct (match effectDeps (app stopped) with
                  | Some old => _
                  | None => false
                  end).
  - rewrite Hx, Hy in Hg. discriminate.
Qed.

(** X13: a render adds at most one turn: either the conversation and the
    slot are as before, or the slot held a non-empty utterance while the
    session was active, and then exactly one turn is appended, created
    with that utterance, an empty answer, no error and
    [isProcessingAnswer] true, and the slot is emptied. A render that
    follows at once adds nothing. *)
Theorem render_adds_one_turn_per_utterance (d d' : N) (sys : System) :
  ((conversation (app (render d sys)) = conversation (app sys)
    /\ finalizedUtterance (hook (render d sys)) = finalizedUtterance (hook sys))
   \/ (finalizedUtterance (hook sys) <> []
       /\ isSessionActive (app sys) = true
       /\ conversation (app (render d sys))
          = conversation (app sys)
            ++ [{| id := toString d;
                   utterance := finalizedUtterance (hook sys);
                   answer := Some []; answerError := None;
                   isProcessingAnswer := true |}]
       /\ finalizedUtterance (hook (render d sys)) = []))
  /\ conversation (app (render d' (render d sys)))
     = conversation (app (render d sys)).
Proof.
  split; [|apply render_twice].
  destruct (render_cases d sys) as [H | (H1 & H2 & H3 & H4)]; [now left|].
  right. apply truthy_nonempty in H1. auto.
Qed.

(** X14: from speech to a turn, for a silence timeout below 2^31 ms, the
    range [window.setTimeout] honours. In an active session whose effect has
    seen the empty slot, with no timer pending, batches that each carry
    some text arrive closely spaced and are followed by silence of at
    least the timeout. If the final text accumulated does not trim to the
    empty string, the next render appends exactly one turn whose utterance
    is that trimmed text and empties the slot, and a further render adds
    nothing. *)
Theorem utterance_becomes_one_turn
    (sys : System) (first : N * SpeechRecognitionEvent)
    (rest : list (N * SpeechRecognitionEvent)) (t d d' : N) :
  utteranceSilenceTimeoutMs < 2147483648 ->
  isSessionActive (app sys) = true ->
  effectDeps (app sys) = Some ([], true) ->
  timers (hook sys) = [] ->
  clock (hook sys) <= fst first ->
  closelySpaced (fst first) rest ->
  Forall speech (first :: rest) ->
  lastArrival (fst first) rest + utteranceSilenceTimeoutMs <= t ->
  let text := currentUtteranceRef (hook sys) ++ allFragments (first :: rest) in
  trim text <> [] ->
  let heard := {| hook := advance t (deliverAll (first :: rest) (hook sys));
                  app := app sys |} in
  conversation (app (render d heard))
  = conversation (app sys) ++ [newTurn d (trim text)]
  /\ finalizedUtterance (hook (render d heard)) = []
  /\ conversation (app (render d' (render d heard)))
     = conversation (app (render d heard)).
Proof.
  intros Hrange Ha Hd Ht Hc Hs Hf Hl text Hn heard.
  destruct (speech_silence Hrange (hook sys) first rest t Ht Hc Hs Hf Hl)
    as (_ & _ & _ & H4 & _).
  cbv zeta in H4. fold text in H4.
  apply truthy_nonempty in Hn. rewrite Hn in H4.
  unfold heard. clear heard.
  remember (advance t (deliverAll (first :: rest) (hook sys))) as st1 eqn:E1.
  clear E1.
  set (heard := {| hook := st1; app := app sys |}).
  assert (E : render d heard
              = finalizedUtteranceEffect d
                  {| hook := hook heard;
                     app := set_effectDeps (Some (currentDeps heard)) (app heard) |}).
  { unfold render. simpl. rewrite Hd. unfold depsEqb, currentDeps. simpl.
    rewrite H4. destruct (trim text); [discriminate|reflexivity]. }
  split; [|split; [|apply render_twice]]; rewrite E;
    unfold finalizedUtteranceEffect; simpl; rewrite H4, Hn, Ha; reflexivity.
Qed.

(** ** Turns under stream updates *)
Section TurnsUnderUpdates.

Lemma stepTurn_extends (u : jsstring * StreamUpdate) (turn : ConversationTurn) :
  (exists more,
      orEmpty (answer (stepTurn u turn)) = orEmpty (answer turn) ++ more)
  /\ (isProcessingAnswer turn = false ->
      isProcessingAnswer (stepTurn u turn) = false)
  /\ (answerError turn <> None -> answerError (stepTurn u turn) <> None).
Proof.
  unfold stepTurn, updateTurn. destruct u as [tid [text| |]]; simpl;
    try destruct (truthy (orEmpty text));
    destruct (strictEq (id turn) tid); simpl;
    repeat split; auto; try discriminate;
    try (exists []; now rewrite app_nil_r); eauto.
Qed.

Lemma stepsTurn_extends (us : list (jsstring * StreamUpdate)) :
  forall turn,
    id (stepsTurn us turn) = id turn
    /\ utterance (stepsTurn us turn) = utterance turn
    /\ (exists more,
           orEmpty (answer (stepsTurn us turn)) = orEmpty (answer turn) ++ more)
    /\ (isProcessingAnswer turn = false ->
        isProcessingAnswer (stepsTurn us turn) = false)
    /\ (answerError turn <> None -> answerError (stepsTurn us turn) <> None).
Proof.
  unfold stepsTurn.
  induction us as [|u us IH]; intros turn; simpl.
  - repeat split; auto. exists []. now rewrite app_nil_r.
  - destruct (IH (stepTurn u turn)) as (Hi & Hu & [m2 Hm] & Hp & He).
    destruct (stepTurn_id u turn) as [Hi1 Hu1].
    destruct (stepTurn_extends u turn) as ([m1 Hm1] & Hp1 & He1).
    split; [congruence|]. split; [congruence|]. split; [|split; auto].
    exists (m1 ++ m2). now rewrite Hm, Hm1, app_assoc.
Qed.

End TurnsUnderUpdates.

(** X15: whatever updates the answer streams deliver, in whatever order,
    they add, remove and reorder no turn and change no [id] or
    [utterance]; a turn's answer only grows at its end, a turn that has
    finished processing stays finished, and an error once attached is
    never taken off. *)
Theorem stream_updates_only_extend_answers
    (us : list (jsstring * StreamUpdate)) (conv : list ConversationTurn) :
  length (applyAll us conv) = length conv
  /\ forall (k : nat) (turn : ConversationTurn),
      nth_error conv k = Some turn ->
      exists turn',
        nth_error (applyAll us conv) k = Some turn'
        /\ id turn' = id turn
        /\ utterance turn' = utterance turn
        /\ (exists more,
               orEmpty (answer turn') = orEmpty (answer turn) ++ more)
        /\ (isProcessingAnswer turn = false -> isProcessingAnswer turn' = false)
        /\ (answerError turn <> None -> answerError turn' <> None).
Proof.
  rewrite applyAll_map. split; [apply length_map|].
  intros k turn Hk. exists (stepsTurn us turn).
  rewrite nth_error_map, Hk. split; [reflexivity|].
  apply stepsTurn_extends.
Qed.

(** X16: [handleClearConversation] does nothing unless the user confirms;
    when confirmed it empties the conversation and touches nothing else,
    and the updates of streams still in flight then find no turn to write
    to: the conversation stays empty. *)
Theorem cleared_conversation_stays_empty
    (confirmed : bool) (us : list (jsstring * StreamUpdate)) (sys : System) :
  let sys' := handleClearConversation confirmed sys in
  hook sys' = hook sys
  /\ isSessionActive (app sys') = isSessionActive (app sys)
  /\ conversation (app sys')
     = (if confirmed then [] else conversation (app sys))
  /\ (confirmed = true -> applyAll us (conversation (app sys')) = []).
Proof.
  unfold handleClearConversation. destruct confirmed; simpl.
  - repeat split. intros _. now rewrite applyAll_map.
  - repeat split. discriminate.
Qed.

(** X17: the conversation is append-only. A step of the application
    either empties it (a confirmed clear) or keeps the turns it has, in
    order and with their [id] and [utterance], adding at most one new turn
    at the end. *)
Theorem conversation_is_append_only (sys sys' : System) :
  systemStep sys sys' ->
  conversation (app sys') = []
  \/ exists added,
      (length added <= 1)%nat
      /\ map id (conversation (app sys'))
         = map id (conversation (app sys)) ++ map id added
      /\ map utterance (conversation (app sys'))
         = map utterance (conversation (app sys)) ++ map utterance added.
Proof.
  assert (Same : forall c c' : list ConversationTurn,
             c' = c ->
             c' = [] \/ exists added,
               (length added <= 1)%nat
               /\ map id c' = map id c ++ map id added
               /\ map utterance c' = map utterance c ++ map utterance added).
  { intros c c' ->. right. exists []. simpl. rewrite !app_nil_r. auto. }
  intros Hs. destruct Hs.
  - apply Same. reflexivity.
  - destruct (render_cases dateNow sys) as [[H _] | (_ & _ & H & _)].
    + apply Same. exact H.
    + right. exists [newTurn dateNow (finalizedUtterance (hook sys))].
      rewrite H, !map_app. simpl. auto.
  - apply Same. unfold handleToggleSession.
    destruct (apiKeyVerified (app sys)) as [[|]|]; try reflexivity.
    destruct (hasPermission (hook sys)) as [[|]|]; simpl; try reflexivity;
      try destruct (truthy (orEmpty (error (hook sys)))
                    && includes (orEmpty (error (hook sys))) (lit "not supported"));
      try reflexivity;
      destruct (isSessionActive (app sys)); reflexivity.
  - unfold handleClearConversation. destruct confirmed; simpl;
      [now left | now apply Same].
  - apply Same. unfold apiKeyEffect. now destruct k.
  - simpl. right. exists []. simpl. rewrite !app_nil_r.
    rewrite applyUpdate_map, !map_map. split; [lia|].
    split; apply map_ext; intros turn;
      now destruct (stepTurn_id (newTurnId, u) turn).
Qed.

(** ** The answer service *)

(** X18: [generateAnswerStream] builds the client once and keeps it: with
    a client at hand it is used whatever the environment now holds; with
    none, a truthy [API_KEY] gives a client built with that key, which is
    kept, and a missing or empty one makes the stream fail before any
    chunk, with no client kept and without the SDK running. The chunks of
    the SDK are passed on unchanged and in order. The stream fails exactly
    when the key is missing or the SDK throws, and what it throws is always
    an [Error] whose message is either "Gemini API stream error: "
    followed by the original message, or the "unknown error" text. *)
Theorem answer_stream_service
    (sdk : GoogleGenAI -> jsstring -> SdkResponse)
    (API_KEY : option jsstring) (question : jsstring)
    (ai : option GoogleGenAI) :
  let stream := fst (generateAnswerStream sdk API_KEY question ai) in
  let ai' := snd (generateAnswerStream sdk API_KEY question ai) in
  (forall client,
      ai = Some client ->
      ai' = Some client
      /\ chunks stream = sdkChunks (sdk client question)
      /\ (failure stream = None <-> sdkThrown (sdk client question) = None))
  /\ (ai = None -> truthy (orEmpty API_KEY) = true ->
      let client := {| apiKey := orEmpty API_KEY |} in
      ai' = Some client
      /\ chunks stream = sdkChunks (sdk client question)
      /\ (failure stream = None <-> sdkThrown (sdk client question) = None))
  /\ (ai = None -> truthy (orEmpty API_KEY) = false ->
      ai' = None
      /\ stream
         = {| chunks := [];
              failure := Some (Some (lit
                "Gemini API stream error: API_KEY environment variable not set.")) |})
  /\ (forall thrown,
         failure stream = Some thrown ->
         exists message,
           thrown = Some message
           /\ ((exists original,
                   message = lit "Gemini API stream error: " ++ original)
               \/ message = lit
                    "An unknown error occurred while streaming an answer from Gemini.")).
Proof.
  unfold generateAnswerStream, getGenAI.
  repeat split.
  - subst ai. reflexivity.
  - subst ai. reflexivity.
  - subst ai. simpl. destruct (sdkThrown (sdk client question));
      [discriminate | reflexivity].
  - subst ai. simpl. destruct (sdkThrown (sdk client question));
      [discriminate | reflexivity].
  - subst ai. rewrite H0. reflexivity.
  - subst ai. rewrite H0. reflexivity.
  - subst ai. rewrite H0. simpl.
    destruct (sdkThrown (sdk _ question)); [discriminate | reflexivity].
  - subst ai. rewrite H0. simpl.
    destruct (sdkThrown (sdk _ question)); [discriminate | reflexivity].
  - subst ai. rewrite H0. reflexivity.
  - subst ai. rewrite H0. reflexivity.
  - intros thrown.
    destruct ai as [client|]; simpl;
      [|destruct (truthy (orEmpty API_KEY)); simpl];
      try (destruct (sdkThrown (sdk _ question)) as [[original|]|]; simpl);
      intros H; inversion H; subst; eexists; split; try reflexivity;
      try (left; eexists; reflexivity); try (right; reflexivity).
Qed.

(** X19: a question asked while no API key is set and no client exists
    ends as a turn with the empty answer, [isProcessingAnswer] false and
    the error "Gemini API stream error: API_KEY environment variable not
    set."; the other turns are as their own updates leave them. *)
Theorem missing_key_becomes_turn_error
    (sdk : GoogleGenAI -> jsstring -> SdkResponse)
    (API_KEY : option jsstring) (dateNow : N) (question : jsstring)
    (prev : list ConversationTurn) :
  truthy (orEmpty API_KEY) = false ->
  let stream := fst (generateAnswerStream sdk API_KEY question None) in
  processStream (toString dateNow) stream (prev ++ [newTurn dateNow question])
  = processStream (toString dateNow) stream prev
    ++ [{| id := toString dateNow; utterance := question;
           answer := Some [];
           answerError := Some (lit
             "Gemini API stream error: API_KEY environment variable not set.");
           isProcessingAnswer := false |}].
Proof.
  intros H stream.
  assert (E : stream
              = {| chunks := [];
                   failure := Some (Some (lit
                     "Gemini API stream error: API_KEY environment variable not set.")) |})
    by (unfold stream, generateAnswerStream, getGenAI; now rewrite H).
  unfold processStream. rewrite !applyAll_map, map_app. f_equal.
  change (map (stepsTurn (map (fun u => (toString dateNow, u)) (streamUpdates stream)))
            [newTurn dateNow question])
    with [stepsTurn (map (fun u => (toString dateNow, u)) (streamUpdates stream))
            (newTurn dateNow question)].
  rewrite (stepsTurn_stream (toString dateNow) stream
             (newTurn dateNow question) []) by reflexivity.
  rewrite E. reflexivity.
Qed.

(** X20: the key test of [App] is stricter than that of the service. A
    key [App] verifies (a string that does not trim to the empty string)
    is always accepted by [getGenAI], which builds the client with it; a
    key made of white space only is accepted by [getGenAI] but not by
    [App], which then reports that the key is not configured and refuses
    every session toggle. *)
Theorem api_key_checks (API_KEY : option jsstring) (o : StartOutcome) (sys : System) :
  (apiKeyConfigured API_KEY = true ->
   getGenAI API_KEY None
   = (inl {| apiKey := orEmpty API_KEY |}, Some {| apiKey := orEmpty API_KEY |}))
  /\ (forall key,
         API_KEY = Some key -> key <> [] -> trim key = [] ->
         getGenAI API_KEY None = (inl {| apiKey := key |}, Some {| apiKey := key |})
         /\ apiKeyVerified (app (apiKeyCheck API_KEY sys)) = Some false
         /\ globalError (app (apiKeyCheck API_KEY sys)) <> None
         /\ hook (handleToggleSession o (apiKeyCheck API_KEY sys)) = hook sys
         /\ isSessionActive (app (handleToggleSession o (apiKeyCheck API_KEY sys)))
            = isSessionActive (app sys)).
Proof.
  split.
  - unfold apiKeyConfigured, getGenAI. destruct API_KEY as [key|];
      [|discriminate].
    intros H. simpl.
    assert (Hk : truthy key = true).
    { destruct key as [|c r]; [discriminate H | reflexivity]. }
    now rewrite Hk.
  - intros key -> Hn Ht. apply truthy_nonempty in Hn.
    unfold getGenAI, apiKeyCheck, apiKeyConfigured, apiKeyEffect,
      handleToggleSession. simpl. rewrite Hn, Ht. simpl.
    repeat split. discriminate.
Qed.

(** ** What is shown *)

(** Two different literals are different strings. *)
Ltac literals :=
  repeat match goal with
         | H : lit _ = lit _ |- _ => vm_compute in H; discriminate H
         end.

Section Display.

Lemma getStatus_cases (hasMicPermission : option bool) (micError : option jsstring)
    (isInterviewActive isListening_ : bool) :
  getStatus hasMicPermission micError isInterviewActive isListening_
  = if negb (isNotFalse hasMicPermission) then lit "Mic permission denied."
    else if notSupported micError then lit "Mic not supported."
    else if truthy (orEmpty micError) then lit "Mic error."
    else if negb isInterviewActive then lit "Session paused or not started."
    else if isListening_ then lit "Listening for question..."
    else lit "Processing or idle...".
Proof. unfold getStatus. destruct hasMicPermission as [[|]|]; reflexivity. Qed.

Lemma processingTurnFound_utterance (sys : System) :
  processingTurnFound sys = true ->
  exists turn,
    In turn (conversation (app sys))
    /\ utterance turn = finalizedUtterance (hook sys).
Proof.
  unfold processingTurnFound. intros H.
  apply existsb_exists in H. destruct H as (turn & Hin & H).
  apply andb_true_iff in H. destruct H as [_ H].
  apply strictEq_eq in H. eauto.
Qed.

End Display.

(** X21: the status line of the controls. "Mic permission denied." is
    shown exactly when permission is denied, whatever else holds;
    "Listening for question..." exactly when permission is not denied,
    there is no microphone error, the session is active and the hook is
    listening. The session button is never disabled while a session is
    active, and whenever it is disabled the status line says why: it reads
    "Mic permission denied." or "Mic not supported.". *)
Theorem controls_status_line
    (hasMicPermission : option bool) (micError : option jsstring)
    (isInterviewActive isListening_ : bool) :
  let status :=
    getStatus hasMicPermission micError isInterviewActive isListening_ in
  (status = lit "Mic permission denied." <-> hasMicPermission = Some false)
  /\ (status = lit "Listening for question..."
      <-> hasMicPermission <> Some false
          /\ orEmpty micError = []
          /\ isInterviewActive = true
          /\ isListening_ = true)
  /\ (toggleDisabled hasMicPermission micError isInterviewActive = true ->
      isInterviewActive = false
      /\ (status = lit "Mic permission denied."
          \/ status = lit "Mic not supported.")).
Proof.
  intros status. unfold status. rewrite getStatus_cases.
  unfold toggleDisabled.
  assert (Hns : notSupported micError = true ->
                truthy (orEmpty micError) = true).
  { unfold notSupported. intros H. apply andb_true_iff in H. tauto. }
  pose proof (truthy_false (orEmpty micError)) as Hte.
  pose proof (truthy_nonempty (orEmpty micError)) as Htn.
  destruct (notSupported micError), (truthy (orEmpty micError));
    destruct hasMicPermission as [[|]|], isInterviewActive, isListening_;
    cbn [negb isNotFalse orb andb];
    repeat split; intros; literals;
    try reflexivity; try discriminate; try tauto;
    try (exfalso; apply Hns in H; discriminate);
    try (specialize (Hns eq_refl); discriminate);
    try (match goal with
         | H : _ /\ _ |- _ => destruct H as (? & ? & ? & ?)
         end; try discriminate; try congruence; intuition congruence);
    try (right; reflexivity); try (left; reflexivity).
Qed.

(** X22: the panel "Your Current Question" shows at most one message, and
    none at all exactly when the session is active, the hook is not
    listening and an interim transcript is still held. In every reachable
    state of the application the note "Processing: ..." is shown only with
    a non-empty finalized slot, whose text it quotes: once the slot has
    been emptied the note is not shown. *)
Theorem panel_shows_at_most_one_message (sys : System) :
  (length (currentQuestionPanel sys) <= 1)%nat
  /\ (currentQuestionPanel sys = []
      <-> isSessionActive (app sys) = true
          /\ isListening (hook sys) = false
          /\ interimTranscript (hook sys) <> [])
  /\ (systemReachable sys ->
      forall text,
        In (ProcessingNote text) (currentQuestionPanel sys) ->
        text = finalizedUtterance (hook sys)
        /\ finalizedUtterance (hook sys) <> []).
Proof.
  unfold currentQuestionPanel. split; [|split].
  - destruct (isSessionActive (app sys)), (isListening (hook sys)),
      (truthy (interimTranscript (hook sys))), (conversation (app sys)),
      (processingTurnFound sys); simpl; lia.
  - rewrite <- truthy_nonempty.
    destruct (isSessionActive (app sys)), (isListening (hook sys)),
      (truthy (interimTranscript (hook sys))), (conversation (app sys)),
      (processingTurnFound sys); simpl; split; intros H;
      try discriminate; try reflexivity; try tauto;
      destruct H as (? & ? & ?); discriminate.
  - intros Hr text Hin.
    destruct (processingTurnFound sys) eqn:Ep.
    + destruct (processingTurnFound_utterance sys Ep) as (turn & Ht & Hu).
      destruct (systemReachable_ok sys Hr) as [_ Hall].
      rewrite Forall_forall in Hall. destruct (Hall turn Ht) as [Hne _].
      rewrite Hu in Hne. split; [|exact Hne].
      destruct (isSessionActive (app sys)), (isListening (hook sys)),
        (truthy (interimTranscript (hook sys))), (conversation (app sys));
        simpl in Hin; repeat (destruct Hin as [Hin|Hin]; try discriminate Hin);
        try contradiction; now inversion Hin.
    + exfalso.
      destruct (isSessionActive (app sys)), (isListening (hook sys)),
        (truthy (interimTranscript (hook sys))), (conversation (app sys));
        simpl in Hin; repeat (destruct Hin as [Hin|Hin]; try discriminate Hin);
        contradiction.
Qed.

End Model.

(** * The properties on concrete inputs *)

(** The sample states are states the code produces. *)
Lemma startedState_reached :
  startedState = onstart (startListening true Started (initEffect true initialState)).
Proof. reflexivity. Qed.

Lemma listeningState_reached :
  listeningState
  = onresult 1500 (batchOf [finalResult (lit "hello ")])
      (onresult 1500 (batchOf [interimResult (lit "hel")])
         (onstart (startListening true Started (initEffect true initialState)))).
Proof. reflexivity. Qed.

Lemma mumblingState_reached :
  mumblingState
  = onresult 1500 (batchOf [interimResult (lit "how")])
      (onresult 1500 (batchOf [finalResult (lit "  ")])
         (onstart (startListening true Started (initEffect true initialState)))).
Proof. reflexivity. Qed.

Lemma deniedState_reached : deniedState = onerror not_allowed listeningState.
Proof. reflexivity. Qed.

Lemma listeningState_reachable : hookReachable 1500 true listeningState.
Proof.
  rewrite listeningState_reached.
  eapply reach_step; [|apply (step_onresult 1500 true sampleHandle); reflexivity].
  eapply reach_step; [|apply (step_onresult 1500 true sampleHandle); reflexivity].
  eapply reach_step; [|apply (step_onstart 1500 true sampleHandle); reflexivity].
  eapply reach_step; [|apply step_startListening].
  eapply reach_step; [|apply step_initEffect].
  apply reach_initial.
Defined.



(** C2, as stated, fails: called while listening, [startListening] empties
    the accumulated text; called while denied, it clears the manual-stop
    flag and the finalized slot. *)
Lemma startListening_counterexample :
  isListening listeningState = true
  /\ currentUtteranceRef (startListening true Started listeningState)
     <> currentUtteranceRef listeningState
  /\ hasPermission deniedState = Some false
  /\ manualStopRef (startListening true Started deniedState)
     <> manualStopRef deniedState
  /\ finalizedUtterance (startListening true Started deniedState)
     <> finalizedUtterance deniedState.
Proof. repeat split; discriminate. Qed.

Lemma startListening_listening_or_denied_witness :
  startCalls (trace (startListening true Started listeningState))
  = startCalls (trace listeningState)
  /\ currentUtteranceRef (startListening true Started listeningState) = [].
Proof.
  destruct (startListening_listening_or_denied true Started listeningState
              (or_introl eq_refl)) as (H1 & _ & _ & _ & H5 & _).
  exact (conj H1 H5).
Defined.

(** C3, as stated, fails: after a batch of one empty final result no timer
    is armed; and where a timer was armed and an interim transcript was
    showing, the transcript changes and the old timer stays pending. *)
Lemma empty_finals_counterexample :
  onlyEmptyFinals emptyFinalBatch
  /\ ~ timerArmed (onresult 1500 emptyFinalBatch startedState)
  /\ interimTranscript (onresult 1500 emptyFinalBatch mumblingState)
     <> interimTranscript mumblingState
  /\ timers (onresult 1500 emptyFinalBatch mumblingState) = timers mumblingState
  /\ trace (onresult 1500 emptyFinalBatch mumblingState) = trace mumblingState.
Proof.
  split; [repeat constructor|]. split.
  - intros (tid & deadline & H & _). discriminate H.
  - repeat split. discriminate.
Qed.

Lemma onresult_empty_finals_witness :
  onresult 1500 emptyFinalBatch mumblingState
  = set_interimTranscript [] mumblingState.
Proof.
  assert (H : onlyEmptyFinals emptyFinalBatch) by (repeat constructor).
  exact (proj1 (onresult_empty_finals_only_clears_interim 1500
                  emptyFinalBatch mumblingState H)).
Defined.

Lemma onend_restarts_witness :
  startCalls (trace (onend sampleHandle Started listeningState))
  = startCalls (trace listeningState) ++ [handleId sampleHandle].
Proof.
  assert (Hp : capturedHasPermission sampleHandle <> Some false)
    by discriminate.
  exact (proj1 (onend_restarts_at_most_once sampleHandle Started listeningState)
           eq_refl Hp eq_refl).
Defined.

Lemma stopListening_finalizes_witness :
  finalizedUtterance (stopListening listeningState) = lit "hello".
Proof.
  assert (H : trim (currentUtteranceRef listeningState) <> [])
    by discriminate.
  exact (proj1 (stopListening_finalizes_immediately listeningState H)).
Defined.

Lemma blank_utterance_witness :
  conversation
    (app (render 1718000009000
            {| hook := finalize (TimerExpiry 2%positive) (hook mumblingSystem);
               app := app mumblingSystem |}))
  = [answeredTurn].
Proof.
  destruct (proj1 (blank_utterance_is_discarded 1500 true)
              (TimerExpiry 2%positive) mumblingSystem 1718000009000
              eq_refl eq_refl) as (_ & _ & H).
  exact H.
Defined.

Lemma not_allowed_witness :
  error (startListening true Started
           (runOps 1500 true
              [OpEnd sampleHandle Started; OpStartListening Started;
               OpInitEffectCleanup; OpStopListening]
              (onerror not_allowed listeningState)))
  = Some (lit "Cannot start listening: Microphone permission was denied.").
Proof.
  destruct (not_allowed_blocks_start 1500 true not_allowed listeningState
              [OpEnd sampleHandle Started; OpStartListening Started;
               OpInitEffectCleanup; OpStopListening]
              Started eq_refl (or_introl eq_refl))
    as (_ & _ & _ & _ & _ & _ & _ & _ & _ & _ & H & _).
  exact H.
Defined.

(** Two turns in flight, their updates interleaved. *)
Lemma stream_appends_witness :
  nth_error
    (applyAll
       [(toString 1718000002000, Chunk (Some (lit "Par")));
        (toString 1718000000000, Chunk (Some (lit " Thanks.")));
        (toString 1718000002000, Chunk None);
        (toString 1718000002000, Chunk (Some (lit "is")));
        (toString 1718000000000, Finally);
        (toString 1718000002000, Finally)]
       [answeredTurn; newTurn 1718000002000 (lit "capital of France")])
    1
  = Some {| id := toString 1718000002000;
            utterance := lit "capital of France";
            answer := Some (lit "Paris"); answerError := None;
            isProcessingAnswer := false |}.
Proof.
  exact (proj1 stream_appends_fragments
           [answeredTurn; newTurn 1718000002000 (lit "capital of France")]
           1%nat 1718000002000 (lit "capital of France")
           {| chunks := [Some (lit "Par"); None; Some (lit "is")];
              failure := None |}
           [(toString 1718000002000, Chunk (Some (lit "Par")));
            (toString 1718000000000, Chunk (Some (lit " Thanks.")));
            (toString 1718000002000, Chunk None);
            (toString 1718000002000, Chunk (Some (lit "is")));
            (toString 1718000000000, Finally);
            (toString 1718000002000, Finally)]
           eq_refl eq_refl).
Defined.

Lemma stream_updates_witness :
  exists turn',
    nth_error
      (applyUpdate (toString 1718000002000) (Chunk (Some (lit "Par")))
         [answeredTurn; newTurn 1718000002000 (lit "capital of France")])
      0
    = Some turn'
    /\ id turn' = id answeredTurn
    /\ utterance turn' = utterance answeredTurn
    /\ (id answeredTurn <> toString 1718000002000 -> turn' = answeredTurn).
Proof.
  exact (proj2 (proj1 stream_updates_by_identifier
                  (toString 1718000002000) (Chunk (Some (lit "Par")))
                  [answeredTurn; newTurn 1718000002000 (lit "capital of France")])
           0%nat answeredTurn eq_refl).
Defined.

Lemma finalizedUtterance_witness :
  finalizedUtterance (stopListening listeningState) = []
  \/ (finalizedUtterance (stopListening listeningState) <> []
      /\ trim (finalizedUtterance (stopListening listeningState))
         = finalizedUtterance (stopListening listeningState)).
Proof.
  exact (proj1 (finalizedUtterance_empty_or_trimmed 1500 true)
           (stopListening listeningState)
           (reach_step 1500 true listeningState (stopListening listeningState)
              listeningState_reachable
              (step_stopListening 1500 true listeningState))).
Defined.

(** ** Further properties on concrete inputs *)

Lemma at_most_one_silence_timer_witness :
  timers listeningState = []
  \/ exists tid deadline,
      utteranceFinalizationTimeoutRef listeningState = Some tid
      /\ timers listeningState = [(tid, deadline)].
Proof.
  exact (at_most_one_silence_timer 1500 true listeningState
           listeningState_reachable).
Defined.

(** A batch that announces no new slot. *)
Lemma onresult_reads_new_slots_witness :
  onresult 1500
    {| resultIndex := 3; results := [finalResult (lit "seen before")] |}
    mumblingState
  = set_interimTranscript [] mumblingState.
Proof.
  destruct (onresult_reads_new_slots 1500
              {| resultIndex := 3; results := [finalResult (lit "seen before")] |}
              mumblingState) as (_ & _ & _ & _ & H).
  apply H. simpl. lia.
Defined.

(** Mumbling: one interim result, then silence. *)
Lemma speech_then_silence_witness :
  finalizations
    (trace (advance 1600
              (deliverAll 1500 [(100, batchOf [interimResult (lit "how")])]
                 startedState)))
  = []
  /\ interimTranscript
       (advance 1600
          (deliverAll 1500 [(100, batchOf [interimResult (lit "how")])]
             startedState))
     = lit "how".
Proof.
  assert (Hc : clock startedState <= 100) by (simpl; lia).
  assert (Hf : Forall speech [(100, batchOf [interimResult (lit "how")])])
    by (repeat constructor).
  assert (Hd : lastArrival 100 [] + 1500 <= 1600) by (simpl; lia).
  destruct (speech_then_silence 1500 startedState
              (100, batchOf [interimResult (lit "how")]) [] 1600
              eq_refl eq_refl Hc I Hf Hd) as (_ & _ & H3 & _ & H5 & _).
  exact (conj H3 H5).
Defined.

Lemma onend_flushes_witness :
  finalizedUtterance (onend sampleHandle Started listeningState) = lit "hello".
Proof.
  destruct (proj2 (onend_flushes_unless_manual sampleHandle Started
                     listeningState) eq_refl) as (_ & H & _).
  exact H.
Defined.

Lemma other_errors_witness :
  startCalls (trace (onend sampleHandle Started (onerror network listeningState)))
  = startCalls (trace listeningState) ++ [handleId sampleHandle].
Proof.
  assert (H1 : network <> not_allowed) by discriminate.
  assert (H2 : network <> service_not_allowed) by discriminate.
  assert (Hp : capturedHasPermission sampleHandle <> Some false)
    by discriminate.
  exact (proj2 (other_errors_keep_the_session network sampleHandle Started
                  listeningState H1 H2) eq_refl Hp eq_refl).
Defined.

Lemma unsupported_browser_witness :
  error (startListening false Started (startListening false Started initialState))
  = Some (lit "Speech recognition could not be initialized.").
Proof.
  destruct (unsupported_browser_never_listens 1500 false
              (startListening false Started initialState) Started eq_refl
              (reach_step 1500 false initialState _
                 (reach_initial 1500 false)
                 (step_startListening 1500 false Started initialState)))
    as (_ & H & _).
  exact H.
Defined.

Lemma undecided_permission_witness :
  error (startListening true Started
           (permissionQueryResolved prompt (initEffect true initialState)))
  = Some (lit "Cannot start listening: Microphone permission was denied.").
Proof.
  assert (Hs : prompt <> granted) by discriminate.
  destruct (undecided_permission_counts_as_denied true prompt Started
              (initEffect true initialState) Hs) as (_ & _ & _ & H).
  exact (H eq_refl (or_introl eq_refl)).
Defined.

(** The ordinary flow: the query was issued while idle, the change
    arrives while listening, and the hook is not stopped. *)
Lemma permission_change_witness :
  isListening (permissionOnChange false denied listeningState) = true
  /\ finalizations (trace (permissionOnChange false denied listeningState))
     = finalizations (trace listeningState)
  /\ manualStopRef (permissionOnChange true denied listeningState) = true
  /\ startCalls
       (trace (onend sampleHandle Started
                 (permissionOnChange true denied listeningState)))
     = startCalls (trace listeningState).
Proof.
  assert (Hs : denied <> granted) by discriminate.
  pose proof (proj1 (proj2 (permission_change_uses_captured_listening false
                              denied sampleHandle Started listeningState))
                Hs eq_refl) as E.
  destruct (proj2 (proj2 (permission_change_uses_captured_listening true
                            denied sampleHandle Started listeningState))
              Hs eq_refl) as (_ & _ & H3 & _ & _ & H6).
  split; [rewrite E; reflexivity|]. split; [rewrite E; reflexivity|].
  exact (conj H3 H6).
Defined.

Lemma stop_publishes_once_witness :
  finalizations (trace (stopListening (stopListening listeningState)))
  = finalizations (trace (stopListening listeningState)).
Proof.
  destruct (stop_publishes_once 1500 true listeningState 5000
              listeningState_reachable) as (_ & _ & _ & H).
  exact H.
Defined.

(** With permission denied the toggle does not stop the active session. *)
Lemma toggle_guards_witness :
  isSessionActive (app (handleToggleSession true Started deniedSystem)) = true
  /\ hook (handleToggleSession true Started deniedSystem) = deniedState.
Proof.
  destruct (proj1 (toggle_guards true Started deniedSystem) eq_refl)
    as (H1 & H2 & _).
  exact (conj H2 H1).
Defined.

Lemma stop_toggle_witness :
  finalizedUtterance
    (hook (render 1718000005000 (handleToggleSession true Started grantedSystem)))
  = lit "hello"
  /\ conversation
       (app (render 1718000005000
               (handleToggleSession true Started grantedSystem)))
     = [answeredTurn].
Proof.
  assert (Ht : trim (currentUtteranceRef (hook grantedSystem)) <> [])
    by discriminate.
  assert (Hp : hasPermission (hook grantedSystem) <> Some false)
    by discriminate.
  assert (Hns : hasPermission (hook grantedSystem) = None ->
                notSupported (error (hook grantedSystem)) = false)
    by discriminate.
  destruct (stop_toggle_drops_pending_text true Started Started
              1718000005000 1718000006000 grantedSystem
              eq_refl eq_refl Hp Hns Ht) as (H1 & _ & H3 & _).
  exact (conj H1 H3).
Defined.

(** "how" as an interim result, "how are you" as a final one 500 ms
    later, then silence: one turn asking "how are you". *)
Lemma utterance_becomes_one_turn_witness :
  conversation
    (app (render 1718000007000
            {| hook := advance 2100
                         (deliverAll 1500
                            [(100, batchOf [interimResult (lit "how")]);
                             (600, batchOf [finalResult (lit "how are you")])]
                            (hook startedSystem));
               app := app startedSystem |}))
  = [newTurn 1718000007000 (lit "how are you")].
Proof.
  assert (Hc : clock (hook startedSystem) <= 100) by (simpl; lia).
  assert (Hs : closelySpaced 1500 100
                 [(600, batchOf [finalResult (lit "how are you")])])
    by (simpl; repeat split; lia).
  assert (Hf : Forall speech
                 [(100, batchOf [interimResult (lit "how")]);
                  (600, batchOf [finalResult (lit "how are you")])])
    by (repeat constructor).
  assert (Hd : lastArrival 100
                 [(600, batchOf [finalResult (lit "how are you")])] + 1500
               <= 2100) by (simpl; lia).
  assert (Hn : trim (currentUtteranceRef (hook startedSystem)
                     ++ allFragments
                          [(100, batchOf [interimResult (lit "how")]);
                           (600, batchOf [finalResult (lit "how are you")])])
               <> []) by discriminate.
  destruct (utterance_becomes_one_turn 1500 startedSystem
              (100, batchOf [interimResult (lit "how")])
              [(600, batchOf [finalResult (lit "how are you")])]
              2100 1718000007000 1718000008000
              eq_refl eq_refl eq_refl eq_refl Hc Hs Hf Hd Hn) as (H & _).
  exact H.
Defined.

Lemma stream_updates_only_extend_witness :
  exists turn',
    nth_error
      (applyAll
         [(toString 1718000000000, Chunk (Some (lit " Thanks.")));
          (toString 1718000000000, Throw None)]
         [answeredTurn])
      0
    = Some turn'
    /\ id turn' = id answeredTurn
    /\ utterance turn' = utterance answeredTurn
    /\ (exists more,
           orEmpty (answer turn') = orEmpty (answer answeredTurn) ++ more)
    /\ (isProcessingAnswer answeredTurn = false ->
        isProcessingAnswer turn' = false)
    /\ (answerError answeredTurn <> None -> answerError turn' <> None).
Proof.
  exact (proj2 (stream_updates_only_extend_answers
                  [(toString 1718000000000, Chunk (Some (lit " Thanks.")));
                   (toString 1718000000000, Throw None)]
                  [answeredTurn])
           0%nat answeredTurn eq_refl).
Defined.

Lemma cleared_conversation_witness :
  applyAll [(toString 1718000000000, Chunk (Some (lit " Thanks.")))]
    (conversation (app (handleClearConversation true mumblingSystem)))
  = [].
Proof.
  destruct (cleared_conversation_stays_empty true
              [(toString 1718000000000, Chunk (Some (lit " Thanks.")))]
              mumblingSystem) as (_ & _ & _ & H).
  exact (H eq_refl).
Defined.

Lemma conversation_is_append_only_witness :
  conversation (app (render 1718000005000 mumblingSystem)) = []
  \/ exists added,
      (length added <= 1)%nat
      /\ map id (conversation (app (render 1718000005000 mumblingSystem)))
         = map id (conversation (app mumblingSystem)) ++ map id added
      /\ map utterance (conversation (app (render 1718000005000 mumblingSystem)))
         = map utterance (conversation (app mumblingSystem))
           ++ map utterance added.
Proof.
  exact (conversation_is_append_only 1500 true mumblingSystem
           (render 1718000005000 mumblingSystem)
           (sys_render 1500 true 1718000005000 mumblingSystem)).
Defined.

Lemma answer_stream_service_witness :
  snd (generateAnswerStream
         (fun _ _ => {| sdkChunks := [Some (lit "Paris")]; sdkThrown := None |})
         (Some []) (lit "capital of France") None)
  = None.
Proof.
  destruct (answer_stream_service
              (fun _ _ => {| sdkChunks := [Some (lit "Paris")];
                             sdkThrown := None |})
              (Some []) (lit "capital of France") None)
    as (_ & _ & H & _).
  exact (proj1 (H eq_refl eq_refl)).
Defined.

Lemma missing_key_witness :
  processStream (toString 1718000002000)
    (fst (generateAnswerStream
            (fun _ _ => {| sdkChunks := [Some (lit "Paris")]; sdkThrown := None |})
            None (lit "capital of France") None))
    ([answeredTurn] ++ [newTurn 1718000002000 (lit "capital of France")])
  = processStream (toString 1718000002000)
      (fst (generateAnswerStream
              (fun _ _ => {| sdkChunks := [Some (lit "Paris")]; sdkThrown := None |})
              None (lit "capital of France") None))
      [answeredTurn]
    ++ [{| id := toString 1718000002000;
           utterance := lit "capital of France";
           answer := Some [];
           answerError := Some (lit
             "Gemini API stream error: API_KEY environment variable not set.");
           isProcessingAnswer := false |}].
Proof.
  exact (missing_key_becomes_turn_error
           (fun _ _ => {| sdkChunks := [Some (lit "Paris")]; sdkThrown := None |})
           None 1718000002000 (lit "capital of France") [answeredTurn] eq_refl).
Defined.

(** A key of two spaces: good enough for the service, not for [App]. *)
Lemma api_key_checks_witness :
  getGenAI (Some (lit "  ")) None
  = (inl {| apiKey := lit "  " |}, Some {| apiKey := lit "  " |})
  /\ apiKeyVerified (app (apiKeyCheck (Some (lit "  ")) initialSystem))
     = Some false.
Proof.
  assert (Hn : lit "  " <> []) by discriminate.
  destruct (proj2 (api_key_checks true (Some (lit "  ")) Started initialSystem)
              (lit "  ") eq_refl Hn eq_refl) as (H1 & H2 & _).
  exact (conj H1 H2).
Defined.

Lemma controls_status_line_witness :
  getStatus (Some false) None false false = lit "Mic permission denied."
  \/ getStatus (Some false) None false false = lit "Mic not supported.".
Proof.
  destruct (controls_status_line (Some false) None false false)
    as (_ & _ & H).
  exact (proj2 (H eq_refl)).
Defined.

(** After mumbling and a session end the panel is blank. *)
Lemma panel_witness :
  currentQuestionPanel
    {| hook := onend sampleHandle Started mumblingState;
       app := app mumblingSystem |}
  = [].
Proof.
  assert (Hi : interimTranscript (onend sampleHandle Started mumblingState) <> [])
    by discriminate.
  destruct (panel_shows_at_most_one_message 1500 true
              {| hook := onend sampleHandle Started mumblingState;
                 app := app mumblingSystem |}) as (_ & H & _).
  exact (proj2 H (conj eq_refl (conj eq_refl Hi))).
Defined.
